(** * eRPC: message buffers and the Nexus registration window

    A shallow embedding of [src/msg_buffer.h] and [src/nexus.h].

    - Values of type [size_t] and [uint8_t*] are integers ([Z]) reduced
      modulo [2^64]; the reduction is written out with [wrap] wherever the
      C++ code does arithmetic.
    - Memory holding packet headers is a [heap]: a total map from byte
      addresses to the header stored there.
    - Code that can trip an [assert] lives in the monad [M], whose failure
      value stands for the aborted program.  Every computation threads the
      heap, so that "this call does not write memory" is a statement about
      the result and not a convention. *)

From Stdlib Require Import ZArith Lia Bool List.
From stdpp Require Import base option gmap strings pretty.
Import ListNotations.

Local Open Scope Z_scope.

(** ** Machine integers *)

Definition size_t_modulus : Z := 2 ^ 64.

(** Reduction of an integer to a 64-bit unsigned value. *)
Definition wrap (z : Z) : Z := z mod size_t_modulus.

Definition nullptr : Z := 0.

(** [sizeof(size_t)] on the 64-bit platform the code targets. *)
Definition sizeof_size_t : Z := 8.

(** Pointer displaced by a [size_t] number of bytes. *)
Definition ptr_add (p off : Z) : Z := wrap (p + off).
Definition ptr_sub (p off : Z) : Z := wrap (p - off).

(** Modelled from the spec: [round_up<w>(x)] of [common.h], which is not
    among the sources.  The spec calls it [round_up_word]: the trailing
    headers are "aligned to the platform word size", so [x] is taken to the
    next multiple of [w], in [size_t] arithmetic. *)
Definition round_up (w x : Z) : Z := wrap (w * ((x + (w - 1)) / w)).

(** ** Packet headers and the memory that holds them *)

(** Modelled from the spec: [pkthdr_t] of [pkthdr.h], which is not among the
    sources.  The spec lists the fields a header has "at minimum"; only
    [magic] is read by the code embedded here. *)
Record pkthdr_t := mk_pkthdr {
  magic : Z;
  msg_type : Z;
  payload_len : Z;
  seq_num : Z;
  local_session_num : Z;
  remote_session_num : Z;
  req_num : Z
}.

Definition heap := Z -> pkthdr_t.

(** ** The assertion monad over the heap *)

Definition M (A : Type) : Type := heap -> option (A * heap).

Definition ret {A} (a : A) : M A := fun h => Some (a, h).

Definition bind {A B} (c : M A) (k : A -> M B) : M B :=
  fun h => match c h with
           | Some (a, h') => k a h'
           | None => None
           end.

(** C++ [assert(b)]: the program stops when [b] is false. *)
Definition c_assert (b : bool) : M unit :=
  fun h => if b then Some (tt, h) else None.

(** [M] is a monad in the sense of stdpp, which gives the [c1 ;; c2] and
    [x ← c1; c2] notations. *)
#[global] Instance M_ret : MRet M := @ret.
#[global] Instance M_bind : MBind M := fun A B k c => bind c k.

(** ** Backing buffers *)

Module Buffer.
(** Modelled from the spec: [Buffer] of [util/buffer.h], which is not among
    the sources: a handle carrying the pointer to the base of the region
    and its class size. *)
Record t := mk { buf : Z; class_size : Z }.
End Buffer.

(** ** MsgBuffer *)

(** The anonymous union of [pkts_queued] and [pkts_rcvd] is one word. *)
Record MsgBuffer := mkMsgBuffer {
  buf : Z;
  buffer : Buffer.t;
  max_data_size : Z;
  data_size : Z;
  max_num_pkts : Z;
  num_pkts : Z;
  pkts_queued : Z
}.

Definition pkts_rcvd (m : MsgBuffer) : Z := pkts_queued m.

(** [sizeof(pkthdr_t)] and [kPktHdrMagic] come from [pkthdr.h], and
    [Buffer::get_invalid_buffer()] from [util/buffer.h]; neither file is
    among the sources, so the three are parameters of the development. *)
Class Platform := {
  sizeof_pkthdr_t : Z;
  kPktHdrMagic : Z;
  get_invalid_buffer : Buffer.t
}.

Section MsgBufferModel.

Context `{P : Platform}.

(** [MsgBuffer::get_invalid_msgbuf]: a default-constructed object, whose
    fields are whatever [uninit] holds, with [buf] set to null. *)
Definition get_invalid_msgbuf (uninit : MsgBuffer) : MsgBuffer :=
  {| buf := nullptr;
     buffer := buffer uninit;
     max_data_size := max_data_size uninit;
     data_size := data_size uninit;
     max_num_pkts := max_num_pkts uninit;
     num_pkts := num_pkts uninit;
     pkts_queued := pkts_queued uninit |}.

(** [MsgBuffer::get_pkthdr_0] *)
Definition get_pkthdr_0 (m : MsgBuffer) : Z :=
  ptr_sub (buf m) sizeof_pkthdr_t.

(** [MsgBuffer::get_pkthdr_n] *)
Definition get_pkthdr_n (m : MsgBuffer) (n : Z) : option Z :=
  if 1 <=? n then
    Some (ptr_add (ptr_add (buf m) (round_up sizeof_size_t (max_data_size m)))
                  (wrap (wrap (n - 1) * sizeof_pkthdr_t)))
  else None.

(** [MsgBuffer::is_valid] *)
Definition is_valid (h : heap) (m : MsgBuffer) : bool :=
  if buf m =? nullptr then false
  else if negb (magic (h (get_pkthdr_0 m)) =? kPktHdrMagic) then false
  else true.

(** [MsgBuffer::get_data_size] *)
Definition get_data_size (m : MsgBuffer) : Z := data_size m.

(** [MsgBuffer::MsgBuffer(Buffer, size_t, size_t)]: the member
    initialisers build the object, then the body runs its assertions. *)
Definition MsgBuffer_owning (b : Buffer.t) (max_data_size max_num_pkts : Z)
  : M MsgBuffer :=
  let this :=
    {| buf := ptr_add (Buffer.buf b) sizeof_pkthdr_t;
       buffer := b;
       max_data_size := max_data_size;
       data_size := max_data_size;
       max_num_pkts := max_num_pkts;
       num_pkts := max_num_pkts;
       pkts_queued := 0 |} in
  c_assert (negb (Buffer.buf b =? nullptr)) ;;
  c_assert (1 <=? max_num_pkts) ;;
  c_assert (wrap (max_data_size + wrap (max_num_pkts * sizeof_pkthdr_t))
              <=? Buffer.class_size b) ;;
  mret this.

(** [MsgBuffer::MsgBuffer(uint8_t*, size_t)] *)
Definition MsgBuffer_rx (pkt : Z) (max_data_size : Z) : M MsgBuffer :=
  let this :=
    {| buf := ptr_add pkt sizeof_pkthdr_t;
       buffer := get_invalid_buffer;
       max_data_size := max_data_size;
       data_size := max_data_size;
       max_num_pkts := 1;
       num_pkts := 1;
       pkts_queued := 0 |} in
  c_assert (negb (buf this =? nullptr)) ;;
  mret this.

(** [MsgBuffer::resize] *)
Definition resize (this : MsgBuffer) (new_data_size new_num_pkts : Z)
  : M MsgBuffer :=
  c_assert (new_data_size <=? max_data_size this) ;;
  c_assert (new_num_pkts <=? max_num_pkts this) ;;
  mret {| buf := buf this;
         buffer := buffer this;
         max_data_size := max_data_size this;
         data_size := new_data_size;
         max_num_pkts := max_num_pkts this;
         num_pkts := new_num_pkts;
         pkts_queued := pkts_queued this |}.

End MsgBufferModel.

(** ** Nexus: control-transport peers *)

(** [ENetPeer] belongs to the ENet library; the Nexus only looks at [data],
    the pointer an application may attach to a peer. *)
Record ENetPeer := mkENetPeer { data : Z }.

(** [Nexus::sm_is_peer_mode_server] *)
Definition sm_is_peer_mode_server (e : ENetPeer) : bool := data e =? nullptr.

(** ** Nexus: hooks and request-function registration *)

(** [Nexus::Hook].  The two installed members are pointers, null until the
    Nexus fills them in.  The hook's own [sm_rx_list] is a queue that no
    registration call reads or writes, and is left out. *)
Record Hook := mkHook {
  rpc_id : Z;
  bg_req_list_arr : list Z;
  sm_tx_list : Z
}.

(** A request handler is named by its code address; [ReqFunc] is a possibly
    empty handler, as passed to [register_req_func]. *)
Definition ReqFunc : Type := option Z.

(** The members of [Nexus] that registration reads or writes.
    - [req_func_arr] is the array indexed by the 8-bit request type: looking
      up a slot yields the [ReqFunc] stored there, [None] for an empty slot.
    - [reg_hooks_arr] is the array of hook pointers indexed by the Rpc id:
      a slot holds the hook it points to, [None] for a null slot.
    - [sm_tx_list_ref] is the address of [sm_thread_ctx.sm_tx_list], and
      [bg_req_list_refs] the addresses of [bg_thread_ctx_arr[i].bg_req_list]
      for the background threads that were launched. *)
Record Nexus := mkNexus {
  num_bg_threads : Z;
  req_func_arr : gmap Z Z;
  req_func_registration_allowed : bool;
  reg_hooks_arr : gmap Z Hook;
  sm_tx_list_ref : Z;
  bg_req_list_refs : list Z
}.

(** Modelled from the spec: the state a freshly built Nexus has.  The
    constructor is declared in [nexus.h] and defined outside the sources;
    the member initialisers of [nexus.h] give registration allowed and every
    hook slot null, and the request-function array starts empty. *)
Definition Nexus_new (sm_tx : Z) (bg_refs : list Z) : Nexus :=
  {| num_bg_threads := Z.of_nat (length bg_refs);
     req_func_arr := ∅;
     req_func_registration_allowed := true;
     reg_hooks_arr := ∅;
     sm_tx_list_ref := sm_tx;
     bg_req_list_refs := bg_refs |}.

(** The three ways [register_req_func] fails, as the spec names them. *)
Inductive reg_error := RegistrationClosed | SlotOccupied | InvalidHandler.

(** The calls of the public interface of a built Nexus. *)
Inductive nexus_call :=
| call_register_req_func (req_type : Z) (req_func : ReqFunc)
| call_register_hook (hook : Hook)
| call_unregister_hook (hook : Hook)
| call_rpc_id_exists (id : Z).

Definition is_register_hook (c : nexus_call) : bool :=
  match c with
  | call_register_hook _ => true
  | _ => false
  end.

(** The errno value behind each failure; the spec fixes only that the
    function returns "0 | -errno", so the table is a parameter. *)
Class ErrnoTable := { errno_of : reg_error -> Z }.

Section NexusModel.

Context `{E : ErrnoTable}.

(** Modelled from the spec: [Nexus::register_req_func], declared in
    [nexus.h] and defined outside the sources.  Section 4.4: rejected when
    the registration window is closed, when the slot is occupied, when the
    handler is empty; otherwise the handler is installed and the window
    stays open. *)
Definition register_req_func (req_type : Z) (req_func : ReqFunc) (n : Nexus)
  : Z * Nexus :=
  if negb (req_func_registration_allowed n) then
    (- errno_of RegistrationClosed, n)
  else match req_func_arr n !! req_type with
       | Some _ => (- errno_of SlotOccupied, n)
       | None =>
           match req_func with
           | None => (- errno_of InvalidHandler, n)
           | Some handler =>
               (0, {| num_bg_threads := num_bg_threads n;
                      req_func_arr := <[req_type := handler]> (req_func_arr n);
                      req_func_registration_allowed :=
                        req_func_registration_allowed n;
                      reg_hooks_arr := reg_hooks_arr n;
                      sm_tx_list_ref := sm_tx_list_ref n;
                      bg_req_list_refs := bg_req_list_refs n |})
           end
       end.

(** Modelled from the spec: [Nexus::register_hook], declared in [nexus.h]
    and defined outside the sources.  Section 4.5: asserts that the slot of
    the hook's Rpc id is null, installs the queue references into the hook,
    flips the registration flag, stores the hook.  The result is the hook
    as installed and the new Nexus; [None] is the failed assertion. *)
Definition register_hook (hook : Hook) (n : Nexus) : option (Hook * Nexus) :=
  match reg_hooks_arr n !! rpc_id hook with
  | Some _ => None
  | None =>
      let installed :=
        {| rpc_id := rpc_id hook;
           bg_req_list_arr :=
             bg_req_list_refs n
               ++ drop (length (bg_req_list_refs n)) (bg_req_list_arr hook);
           sm_tx_list := sm_tx_list_ref n |} in
      Some (installed,
            {| num_bg_threads := num_bg_threads n;
               req_func_arr := req_func_arr n;
               req_func_registration_allowed := false;
               reg_hooks_arr := <[rpc_id hook := installed]> (reg_hooks_arr n);
               sm_tx_list_ref := sm_tx_list_ref n;
               bg_req_list_refs := bg_req_list_refs n |})
  end.

(** Modelled from the spec: [Nexus::unregister_hook], declared in [nexus.h]
    and defined outside the sources.  Section 4.5: clears the slot. *)
Definition unregister_hook (hook : Hook) (n : Nexus) : Nexus :=
  {| num_bg_threads := num_bg_threads n;
     req_func_arr := req_func_arr n;
     req_func_registration_allowed := req_func_registration_allowed n;
     reg_hooks_arr := delete (rpc_id hook) (reg_hooks_arr n);
     sm_tx_list_ref := sm_tx_list_ref n;
     bg_req_list_refs := bg_req_list_refs n |}.

(** Modelled from the spec: [Nexus::rpc_id_exists], declared in [nexus.h]
    and defined outside the sources.  Section 4.5: whether the slot is
    occupied. *)
Definition rpc_id_exists (id : Z) (n : Nexus) : bool :=
  match reg_hooks_arr n !! id with
  | Some _ => true
  | None => false
  end.

(** One call on the Nexus, keeping only the state it leaves; [None] when
    the call trips an assertion. *)
Definition step (c : nexus_call) (n : Nexus) : option Nexus :=
  match c with
  | call_register_req_func req_type req_func =>
      Some (snd (register_req_func req_type req_func n))
  | call_register_hook hook => snd <$> register_hook hook n
  | call_unregister_hook hook => Some (unregister_hook hook n)
  | call_rpc_id_exists _ => Some n
  end.

(** A sequence of calls, in order. *)
Fixpoint run (cs : list nexus_call) (n : Nexus) : option Nexus :=
  match cs with
  | [] => Some n
  | c :: cs' =>
      match step c n with
      | Some n' => run cs' n'
      | None => None
      end
  end.

End NexusModel.

(** ** Session-management thread: the peers of the control transport *)

Module SmWorkItem.
(** [Nexus::SmWorkItem]; the session-management packet it carries is opaque
    to peer bookkeeping. *)
Record t := mk { rpc_id : Z; sm_pkt : Z; epeer : Z }.
End SmWorkItem.

(** [Nexus::SmENetPeerData]: the metadata kept for client-mode peers. *)
Record SmENetPeerData := mkSmENetPeerData {
  rem_hostname : string;
  connected : bool;
  wi_tx_queue : list SmWorkItem.t
}.

(** Who opened the connection behind a peer.  The code keeps no such field:
    it is what [sm_is_peer_mode_server] is meant to recover. *)
Inductive peer_origin := Inbound | Outbound.

(** A peer of the ENet host, as the session-management thread meets it. *)
Record LivePeer := mkLivePeer {
  origin : peer_origin;
  host_ip : Z;
  enet_peer : ENetPeer
}.

(** The part of [Nexus::SmThreadCtx] that peer bookkeeping reads or writes:
    the peers of [enet_host] by handle, the two maps "maintained for client
    sessions only", and the allocated [SmENetPeerData] objects by address. *)
Record SmThreadCtx := mkSmThreadCtx {
  enet_peers : gmap Z LivePeer;
  peer_data : gmap Z SmENetPeerData;
  name_map : gmap string Z;
  ip_map : gmap Z string
}.

Definition SmThreadCtx_new : SmThreadCtx :=
  {| enet_peers := ∅; peer_data := ∅; name_map := ∅; ip_map := ∅ |}.

(** Modelled from the spec: one item of the TX drain of [Nexus::sm_thread_tx],
    declared in [nexus.h] and defined outside the sources.  Section 4.6: when
    the destination host has no peer yet, an outbound connect is started,
    client metadata is allocated (remote hostname, not connected, the item
    pending) and attached to the peer; when the peer is connected the item is
    sent; otherwise it joins the pending queue.  [new_peer] is the peer the
    library returns for the connect and [new_data] the address of the
    allocated metadata: the library hands out a peer that is not in use, and
    an allocation is non-null and not in use, so other choices are no run of
    the system ([None]). *)
Definition sm_thread_tx_one
    (wi : SmWorkItem.t) (hostname : string) (ip new_peer new_data : Z)
    (ctx : SmThreadCtx) : option SmThreadCtx :=
  match name_map ctx !! hostname with
  | None =>
      match enet_peers ctx !! new_peer, peer_data ctx !! new_data with
      | None, None =>
          if new_data =? nullptr then None
          else
            Some {| enet_peers :=
                      <[new_peer := {| origin := Outbound;
                                       host_ip := ip;
                                       enet_peer := {| data := new_data |} |}]>
                        (enet_peers ctx);
                    peer_data :=
                      <[new_data := {| rem_hostname := hostname;
                                       connected := false;
                                       wi_tx_queue := [wi] |}]>
                        (peer_data ctx);
                    name_map := <[hostname := new_peer]> (name_map ctx);
                    ip_map := <[ip := hostname]> (ip_map ctx) |}
      | _, _ => None
      end
  | Some peer =>
      match enet_peers ctx !! peer with
      | None => None
      | Some lp =>
          match peer_data ctx !! data (enet_peer lp) with
          | None => None
          | Some d =>
              if connected d then Some ctx
              else
                Some {| enet_peers := enet_peers ctx;
                        peer_data :=
                          <[data (enet_peer lp) :=
                              {| rem_hostname := rem_hostname d;
                                 connected := false;
                                 wi_tx_queue := wi_tx_queue d ++ [wi] |}]>
                            (peer_data ctx);
                        name_map := name_map ctx;
                        ip_map := ip_map ctx |}
          end
      end
  end.

(** Modelled from the spec: [Nexus::sm_thread_handle_connect], declared in
    [nexus.h] and defined outside the sources.  Section 4.6: a client-mode
    peer (metadata non-null) is marked connected and its pending queue is
    flushed; for a server-mode peer (metadata null) nothing is done.  A
    connect event on a peer the thread has not seen is an inbound connection:
    the library presents a peer whose data pointer is null. *)
Definition sm_thread_handle_connect (peer ip : Z) (ctx : SmThreadCtx)
  : option SmThreadCtx :=
  match enet_peers ctx !! peer with
  | None =>
      Some {| enet_peers :=
                <[peer := {| origin := Inbound;
                             host_ip := ip;
                             enet_peer := {| data := nullptr |} |}]>
                  (enet_peers ctx);
              peer_data := peer_data ctx;
              name_map := name_map ctx;
              ip_map := ip_map ctx |}
  | Some lp =>
      if sm_is_peer_mode_server (enet_peer lp) then Some ctx
      else
        match peer_data ctx !! data (enet_peer lp) with
        | None => None
        | Some d =>
            Some {| enet_peers := enet_peers ctx;
                    peer_data :=
                      <[data (enet_peer lp) :=
                          {| rem_hostname := rem_hostname d;
                             connected := true;
                             wi_tx_queue := [] |}]>
                        (peer_data ctx);
                    name_map := name_map ctx;
                    ip_map := ip_map ctx |}
        end
  end.

(** Modelled from the spec: [Nexus::sm_thread_handle_disconnect], declared in
    [nexus.h] and defined outside the sources.  Section 4.6: for a
    client-mode peer the metadata is released and the hostname and IP
    mappings are removed; a server-mode peer has no bookkeeping to release.
    Either way the peer is gone from the host. *)
Definition sm_thread_handle_disconnect (peer : Z) (ctx : SmThreadCtx)
  : option SmThreadCtx :=
  match enet_peers ctx !! peer with
  | None => None
  | Some lp =>
      if sm_is_peer_mode_server (enet_peer lp) then
        Some {| enet_peers := delete peer (enet_peers ctx);
                peer_data := peer_data ctx;
                name_map := name_map ctx;
                ip_map := ip_map ctx |}
      else
        match peer_data ctx !! data (enet_peer lp) with
        | None => None
        | Some d =>
            Some {| enet_peers := delete peer (enet_peers ctx);
                    peer_data := delete (data (enet_peer lp)) (peer_data ctx);
                    name_map := delete (rem_hostname d) (name_map ctx);
                    ip_map := delete (host_ip lp) (ip_map ctx) |}
        end
  end.

(** What the session-management thread meets in its loop: an item of the TX
    drain, or a connect, receive or disconnect event of the RX poll. *)
Inductive sm_event :=
| ev_tx (wi : SmWorkItem.t) (hostname : string) (ip new_peer new_data : Z)
| ev_connect (peer ip : Z)
| ev_receive (peer pkt : Z)
| ev_disconnect (peer : Z).

(** Modelled from the spec: the peer bookkeeping of one step of
    [Nexus::sm_thread_func].  A received packet goes to the mailbox of a
    hook and leaves the peers as they are. *)
Definition sm_step (ev : sm_event) (ctx : SmThreadCtx) : option SmThreadCtx :=
  match ev with
  | ev_tx wi hostname ip new_peer new_data =>
      sm_thread_tx_one wi hostname ip new_peer new_data ctx
  | ev_connect peer ip => sm_thread_handle_connect peer ip ctx
  | ev_receive _ _ => Some ctx
  | ev_disconnect peer => sm_thread_handle_disconnect peer ctx
  end.

Fixpoint sm_run (evs : list sm_event) (ctx : SmThreadCtx)
  : option SmThreadCtx :=
  match evs with
  | [] => Some ctx
  | ev :: evs' =>
      match sm_step ev ctx with
      | Some ctx' => sm_run evs' ctx'
      | None => None
      end
  end.

(** The invariant of the peers: inbound peers have a null data pointer,
    outbound peers a non-null one that points to allocated metadata, and no
    two outbound peers share their metadata. *)
Definition sm_peers_ok (ctx : SmThreadCtx) : Prop :=
  (forall (p : Z) (lp : LivePeer),
      enet_peers ctx !! p = Some lp ->
      match origin lp with
      | Inbound => data (enet_peer lp) = nullptr
      | Outbound =>
          data (enet_peer lp) <> nullptr
          /\ is_Some (peer_data ctx !! data (enet_peer lp))
      end)
  /\ (forall (p1 p2 : Z) (lp1 lp2 : LivePeer),
         enet_peers ctx !! p1 = Some lp1 ->
         enet_peers ctx !! p2 = Some lp2 ->
         origin lp1 = Outbound -> origin lp2 = Outbound ->
         data (enet_peer lp1) = data (enet_peer lp2) ->
         p1 = p2).

(** ** Concrete instances used to run the model *)

(** A platform with 16-byte headers and magic 11, and the usual errno
    numbers (EPERM, EEXIST, EINVAL). *)
Definition ex_platform : Platform :=
  {| sizeof_pkthdr_t := 16;
     kPktHdrMagic := 11;
     get_invalid_buffer := Buffer.mk nullptr 0 |}.

Definition ex_errnos : ErrnoTable :=
  {| errno_of e :=
       match e with
       | RegistrationClosed => 1
       | SlotOccupied => 17
       | InvalidHandler => 22
       end |}.

(** Memory in which every header holds [mg] in its magic field. *)
Definition heap_of_magic (mg : Z) : heap := fun _ => mk_pkthdr mg 0 0 0 0 0 0.

(** An 8 KiB backing buffer at address 65536. *)
Definition ex_buffer : Buffer.t := Buffer.mk 65536 8192.

(** The message buffer [MsgBuffer(ex_buffer, 4096, 3)] on [ex_platform]. *)
Definition ex_msgbuf : MsgBuffer :=
  {| buf := 65552;
     buffer := ex_buffer;
     max_data_size := 4096;
     data_size := 4096;
     max_num_pkts := 3;
     num_pkts := 3;
     pkts_queued := 0 |}.

(** A Nexus with two background threads, and the hook of endpoint 5. *)
Definition ex_nexus : Nexus := Nexus_new 4096 [8192; 12288].

Definition ex_hook : Hook :=
  {| rpc_id := 5; bg_req_list_arr := [nullptr; nullptr; nullptr; nullptr];
     sm_tx_list := nullptr |}.

(** Scenario S5, state by state: handler 1000 registered for request type 1;
    then the hook of endpoint 5 registered; then a second handler refused,
    a lookup, and the hook unregistered. *)
Definition ex_nexus_open : Nexus :=
  {| num_bg_threads := 2;
     req_func_arr := <[1 := 1000]> ∅;
     req_func_registration_allowed := true;
     reg_hooks_arr := ∅;
     sm_tx_list_ref := 4096;
     bg_req_list_refs := [8192; 12288] |}.

Definition ex_hook_installed : Hook :=
  {| rpc_id := 5; bg_req_list_arr := [8192; 12288; nullptr; nullptr];
     sm_tx_list := 4096 |}.

Definition ex_nexus_closed : Nexus :=
  {| num_bg_threads := 2;
     req_func_arr := <[1 := 1000]> ∅;
     req_func_registration_allowed := false;
     reg_hooks_arr := <[5 := ex_hook_installed]> ∅;
     sm_tx_list_ref := 4096;
     bg_req_list_refs := [8192; 12288] |}.

Definition ex_nexus_after : Nexus :=
  {| num_bg_threads := 2;
     req_func_arr := <[1 := 1000]> ∅;
     req_func_registration_allowed := false;
     reg_hooks_arr := ∅;
     sm_tx_list_ref := 4096;
     bg_req_list_refs := [8192; 12288] |}.

Definition ex_calls_before : list nexus_call :=
  [call_register_req_func 1 (Some 1000)].

Definition ex_calls_after : list nexus_call :=
  [call_register_req_func 2 (Some 2000); call_rpc_id_exists 5;
   call_unregister_hook ex_hook].

(** ** MsgBuffer: diagnostics and runs of resizes *)

(** What [to_string] prints through the stream and through
    [Buffer::to_string()]: the rendering of a [void*] is left to the
    implementation by the language, and [util/buffer.h] is not among the
    sources; both are parameters.  A [size_t] is printed in decimal. *)
Class Rendering := {
  show_ptr : Z -> string;
  Buffer_to_string : Buffer.t -> string
}.

Definition show_size_t (z : Z) : string := pretty z.

(** [MsgBuffer::to_string] *)
Definition to_string `{R : Rendering} (m : MsgBuffer) : string :=
  if buf m =? nullptr then "[Invalid]"%string
  else ("[buf " +:+ show_ptr (buf m) +:+ ", "
        +:+ "buffer " +:+ Buffer_to_string (buffer m) +:+ ", "
        +:+ "data " +:+ show_size_t (data_size m)
        +:+ "(" +:+ show_size_t (max_data_size m) +:+ "), "
        +:+ "pkts " +:+ show_size_t (num_pkts m)
        +:+ "(" +:+ show_size_t (max_num_pkts m) +:+ "), "
        +:+ "pkts queued/rcvd " +:+ show_size_t (pkts_queued m) +:+ "]")%string.

(** A message buffer resized again and again: each request is a pair
    [(new_data_size, new_num_pkts)] handed to [resize], in order. *)
Fixpoint resize_all (reqs : list (Z * Z)) (this : MsgBuffer) : M MsgBuffer :=
  match reqs with
  | [] => mret this
  | (new_data_size, new_num_pkts) :: rest =>
      resized ← resize this new_data_size new_num_pkts;
      resize_all rest resized
  end.

(** The sizes a run of resizes ends with: those of the last request. *)
Definition final_sizes (reqs : list (Z * Z)) (this : MsgBuffer) : Z * Z :=
  default (data_size this, num_pkts this) (last reqs).

(** [this] with its two current sizes replaced, as [resize] leaves it. *)
Definition with_sizes (this : MsgBuffer) (sizes : Z * Z) : MsgBuffer :=
  {| buf := buf this;
     buffer := buffer this;
     max_data_size := max_data_size this;
     data_size := fst sizes;
     max_num_pkts := max_num_pkts this;
     num_pkts := snd sizes;
     pkts_queued := pkts_queued this |}.

(** Whether a request goes past the allocation of [this]. *)
Definition past_max (this : MsgBuffer) (req : Z * Z) : bool :=
  (max_data_size this <? fst req) || (max_num_pkts this <? snd req).

(** A rendering for running [to_string]: pointers and class sizes in
    decimal. *)
Definition ex_rendering : Rendering :=
  {| show_ptr := fun p => pretty p;
     Buffer_to_string := fun b =>
       ("[" +:+ pretty (Buffer.buf b) +:+ ", "
        +:+ pretty (Buffer.class_size b) +:+ "]")%string |}.

(** A session-management thread that sent one item to host B (outbound
    peer 100, metadata at 5000), saw that connection complete, and accepted
    an inbound connection (peer 200). *)
Definition ex_sm_events : list sm_event :=
  [ev_tx (SmWorkItem.mk 7 1 0) "hostB" 167772162 100 5000;
   ev_connect 100 167772162;
   ev_connect 200 167772163].

Definition ex_sm_ctx : SmThreadCtx :=
  {| enet_peers :=
       <[200 := {| origin := Inbound; host_ip := 167772163;
                   enet_peer := {| data := nullptr |} |}]>
         (<[100 := {| origin := Outbound; host_ip := 167772162;
                      enet_peer := {| data := 5000 |} |}]> ∅);
     peer_data :=
       <[5000 := {| rem_hostname := "hostB"; connected := true;
                    wi_tx_queue := [] |}]> ∅;
     name_map := <["hostB"%string := 100]> ∅;
     ip_map := <[167772162 := "hostB"%string]> ∅ |}.

(** ** Proof automation *)

(** Decides a closed arithmetic side condition by evaluation. *)
Ltac by_evaluation :=
  vm_compute; first [reflexivity | discriminate | intro; discriminate].

(** Closes the goals of a failure case of [register_req_func]: the result is
    a negated positive errno and the Nexus is the one the call was given. *)
Ltac failure_case :=
  repeat split; intros;
  try match goal with
      | Hsome : is_Some None |- _ => destruct Hsome as [? Hsome]; discriminate Hsome
      end;
  try match goal with
      | Hand : _ /\ _ /\ _ |- _ => destruct Hand as (? & ? & ?)
      end;
  try lia; try discriminate; try congruence; try tauto.

(** * Properties *)

(** ** Machine integers *)

Lemma size_t_modulus_eq : size_t_modulus = 18446744073709551616.
Proof. reflexivity. Qed.

Lemma wrap_small (z : Z) : 0 <= z < size_t_modulus -> wrap z = z.
Proof. intros Hz. unfold wrap. apply Z.mod_small. exact Hz. Qed.

Lemma wrap_range (z : Z) : 0 <= wrap z < size_t_modulus.
Proof. unfold wrap. apply Z.mod_pos_bound. rewrite size_t_modulus_eq. lia. Qed.

(** Where nothing overflows, [round_up] on words is the least multiple of 8
    that is not below its argument. *)
Lemma round_up_word_bounds (x : Z) :
  0 <= x -> x + 7 < size_t_modulus ->
  round_up sizeof_size_t x = 8 * ((x + 7) / 8)
  /\ x <= round_up sizeof_size_t x < x + 8
  /\ round_up sizeof_size_t x mod 8 = 0.
Proof.
  intros Hx Hlt. unfold round_up, sizeof_size_t.
  replace (x + (8 - 1)) with (x + 7) by lia.
  pose proof (Z.div_mod (x + 7) 8 ltac:(lia)) as Hdm.
  pose proof (Z.mod_pos_bound (x + 7) 8 ltac:(lia)) as Hmb.
  rewrite wrap_small by lia.
  split; [reflexivity|]. split; [lia|].
  rewrite Z.mul_comm. apply Z.mod_mul. lia.
Qed.

(** The same value written with the usual mask, [(x + 7) & ~7]. *)
Lemma round_up_word_mask (x : Z) :
  0 <= x -> x + 7 < size_t_modulus ->
  round_up sizeof_size_t x = Z.land (x + 7) (Z.lnot 7).
Proof.
  intros Hx Hlt.
  destruct (round_up_word_bounds x Hx Hlt) as [-> _].
  change (Z.lnot 7) with (Z.lnot (Z.ones 3)).
  rewrite <- Z.ldiff_land, Z.ldiff_ones_r by lia.
  rewrite Z.shiftr_div_pow2, Z.shiftl_mul_pow2 by lia.
  change (2 ^ 3) with 8. lia.
Qed.

(** ** Running the assertion monad *)

Lemma c_assert_bind {A} (b : bool) (k : M A) (h : heap) :
  (c_assert b ;; k) h = if b then k h else None.
Proof. destruct b; reflexivity. Qed.

Lemma mret_run {A} (a : A) (h : heap) : (mret a : M A) h = Some (a, h).
Proof. reflexivity. Qed.

Section MsgBufferFacts.

Context `{P : Platform}.

(** The owning constructor, run: the three assertions, then the object. *)
Lemma MsgBuffer_owning_run (b : Buffer.t) (D N : Z) (h : heap) :
  MsgBuffer_owning b D N h =
  if negb (Buffer.buf b =? nullptr)
     && (1 <=? N)
     && (wrap (D + wrap (N * sizeof_pkthdr_t)) <=? Buffer.class_size b)
  then Some ({| buf := ptr_add (Buffer.buf b) sizeof_pkthdr_t;
                buffer := b;
                max_data_size := D;
                data_size := D;
                max_num_pkts := N;
                num_pkts := N;
                pkts_queued := 0 |}, h)
  else None.
Proof.
  unfold MsgBuffer_owning. rewrite !c_assert_bind, mret_run.
  destruct (negb (Buffer.buf b =? nullptr)), (1 <=? N); reflexivity.
Qed.

(** With a non-negative header size, the capacity the constructor checks in
    [size_t] arithmetic is the capacity computed over the integers. *)
Lemma capacity_no_wrap (b : Buffer.t) (D N : Z) :
  0 <= sizeof_pkthdr_t -> 0 <= D -> 0 <= N ->
  D + N * sizeof_pkthdr_t <= Buffer.class_size b ->
  Buffer.class_size b < size_t_modulus ->
  wrap (D + wrap (N * sizeof_pkthdr_t)) = D + N * sizeof_pkthdr_t.
Proof.
  intros HS HD HN Hcap Hcs.
  assert (0 <= N * sizeof_pkthdr_t) by nia.
  rewrite (wrap_small (N * sizeof_pkthdr_t)) by lia.
  apply wrap_small. lia.
Qed.

Lemma MsgBuffer_rx_run (pkt D : Z) (h : heap) :
  MsgBuffer_rx pkt D h =
  if negb (ptr_add pkt sizeof_pkthdr_t =? nullptr)
  then Some ({| buf := ptr_add pkt sizeof_pkthdr_t;
                buffer := get_invalid_buffer;
                max_data_size := D;
                data_size := D;
                max_num_pkts := 1;
                num_pkts := 1;
                pkts_queued := 0 |}, h)
  else None.
Proof.
  unfold MsgBuffer_rx. rewrite c_assert_bind, mret_run. reflexivity.
Qed.

Lemma resize_run (m : MsgBuffer) (d n : Z) (h : heap) :
  resize m d n h =
  if (d <=? max_data_size m) && (n <=? max_num_pkts m)
  then Some ({| buf := buf m;
                buffer := buffer m;
                max_data_size := max_data_size m;
                data_size := d;
                max_num_pkts := max_num_pkts m;
                num_pkts := n;
                pkts_queued := pkts_queued m |}, h)
  else None.
Proof.
  unfold resize. rewrite !c_assert_bind, mret_run.
  destruct (d <=? max_data_size m); reflexivity.
Qed.

(** A header-size displacement and its inverse cancel on every pointer
    value. *)
Lemma ptr_sub_add (p : Z) :
  0 <= p < size_t_modulus ->
  ptr_sub (ptr_add p sizeof_pkthdr_t) sizeof_pkthdr_t = p.
Proof.
  intros Hp. unfold ptr_sub, ptr_add, wrap.
  rewrite Zminus_mod_idemp_l.
  replace (p + sizeof_pkthdr_t - sizeof_pkthdr_t) with p by lia.
  apply Z.mod_small. exact Hp.
Qed.

(** The invalid message buffer is invalid, whatever memory holds. *)
Lemma get_invalid_msgbuf_not_valid (h : heap) (uninit : MsgBuffer) :
  is_valid h (get_invalid_msgbuf uninit) = false.
Proof. reflexivity. Qed.

End MsgBufferFacts.

(** ** Message buffers *)

Section MsgBufferClaims.

Context `{P : Platform}.

(** What [is_valid] computes, for any object and any memory. *)
Lemma is_valid_true_iff (h : heap) (m : MsgBuffer) :
  is_valid h m = true
  <-> buf m <> nullptr /\ magic (h (get_pkthdr_0 m)) = kPktHdrMagic.
Proof.
  unfold is_valid.
  destruct (Z.eqb_spec (buf m) nullptr) as [Hnull | Hnn].
  - split; [discriminate | intros [Hc _]; contradiction].
  - destruct (Z.eqb_spec (magic (h (get_pkthdr_0 m))) kPktHdrMagic) as [Hm | Hm];
      cbn [negb]; split; try discriminate; tauto.
Qed.

(** The object the owning constructor builds, where its assertions pass. *)
Lemma MsgBuffer_owning_ok (h : heap) (b : Buffer.t) (D N : Z) :
  0 < sizeof_pkthdr_t ->
  Buffer.buf b <> nullptr ->
  0 <= D -> 1 <= N ->
  D + N * sizeof_pkthdr_t <= Buffer.class_size b ->
  Buffer.class_size b < size_t_modulus ->
  MsgBuffer_owning b D N h =
  Some ({| buf := ptr_add (Buffer.buf b) sizeof_pkthdr_t;
           buffer := b;
           max_data_size := D;
           data_size := D;
           max_num_pkts := N;
           num_pkts := N;
           pkts_queued := 0 |}, h).
Proof.
  intros HS Hnn HD HN Hcap Hcs.
  rewrite MsgBuffer_owning_run.
  rewrite (capacity_no_wrap b D N) by lia.
  destruct (Z.eqb_spec (Buffer.buf b) nullptr) as [Hc | _]; [contradiction|].
  destruct (Z.leb_spec 1 N); [|lia].
  destruct (Z.leb_spec (D + N * sizeof_pkthdr_t) (Buffer.class_size b)); [|lia].
  reflexivity.
Qed.

(** C1 (as amended).  The owning constructor writes no memory and places
    [pkthdr_0] at [buffer.buf]; right after construction [is_valid()] holds
    exactly when the magic field already stored at [buffer.buf] is
    [kPktHdrMagic].  The constructor does not establish the magic itself. *)
Theorem owning_ctor_valid_iff_magic_present
    (h : heap) (b : Buffer.t) (D N : Z) :
  0 < sizeof_pkthdr_t ->
  0 < Buffer.buf b ->
  Buffer.buf b + Buffer.class_size b < size_t_modulus ->
  0 <= D -> 1 <= N ->
  D + N * sizeof_pkthdr_t <= Buffer.class_size b ->
  exists m,
    MsgBuffer_owning b D N h = Some (m, h)
    /\ get_pkthdr_0 m = Buffer.buf b
    /\ (is_valid h m = true <-> magic (h (Buffer.buf b)) = kPktHdrMagic).
Proof.
  intros HS Hb Hrange HD HN Hcap.
  assert (HNS : sizeof_pkthdr_t <= N * sizeof_pkthdr_t) by nia.
  eexists. split.
  { apply MsgBuffer_owning_ok; unfold nullptr; lia. }
  assert (Hp0 : get_pkthdr_0
                  {| buf := ptr_add (Buffer.buf b) sizeof_pkthdr_t;
                     buffer := b; max_data_size := D; data_size := D;
                     max_num_pkts := N; num_pkts := N; pkts_queued := 0 |}
                = Buffer.buf b).
  { unfold get_pkthdr_0. cbn [buf]. apply ptr_sub_add. lia. }
  split; [exact Hp0|].
  rewrite is_valid_true_iff, Hp0. cbn [buf].
  unfold ptr_add. rewrite wrap_small by lia. unfold nullptr.
  split; [intros [_ Hm]; exact Hm | intros Hm; split; [lia | exact Hm]].
Qed.

(** Address of a trailing header of a freshly built owning message buffer,
    where the layout does not run past the end of the address space. *)
Lemma get_pkthdr_n_owning (b : Buffer.t) (D N i : Z) :
  0 < sizeof_pkthdr_t ->
  0 < Buffer.buf b ->
  0 <= D ->
  D + N * sizeof_pkthdr_t <= Buffer.class_size b ->
  Buffer.buf b + Buffer.class_size b + sizeof_size_t <= size_t_modulus ->
  1 <= i < N ->
  get_pkthdr_n
    {| buf := ptr_add (Buffer.buf b) sizeof_pkthdr_t;
       buffer := b; max_data_size := D; data_size := D;
       max_num_pkts := N; num_pkts := N; pkts_queued := 0 |} i
  = Some (Buffer.buf b + sizeof_pkthdr_t + round_up sizeof_size_t D
          + (i - 1) * sizeof_pkthdr_t).
Proof.
  intros HS Hb HD Hcap Hrange Hi.
  unfold sizeof_size_t in Hrange.
  assert (HiS : i - 1 <= (i - 1) * sizeof_pkthdr_t) by nia.
  assert (HNS : (i - 1) * sizeof_pkthdr_t + 2 * sizeof_pkthdr_t
                <= N * sizeof_pkthdr_t) by nia.
  destruct (round_up_word_bounds D HD ltac:(lia)) as (_ & Hru & _).
  unfold get_pkthdr_n. cbn [buf max_data_size].
  destruct (Z.leb_spec 1 i); [|lia].
  f_equal. unfold ptr_add.
  rewrite (wrap_small (i - 1)) by lia.
  rewrite (wrap_small ((i - 1) * sizeof_pkthdr_t)) by lia.
  rewrite (wrap_small (Buffer.buf b + sizeof_pkthdr_t)) by lia.
  rewrite (wrap_small (Buffer.buf b + sizeof_pkthdr_t + _)) by lia.
  apply wrap_small. lia.
Qed.

(** C2 (as amended).  For [1 <= i < N], [get_pkthdr_n(i)] is at
    [buf + round_up_word(D) + (i-1)*sizeof(pkthdr)], where [buf] is the first
    payload byte, [sizeof(pkthdr)] bytes past the base of the backing buffer:
    measured from that base the address is
    [base + sizeof(pkthdr) + round_up_word(D) + (i-1)*sizeof(pkthdr)].
    No trailing header overlaps the payload region [[buf, buf + D)]. *)
Theorem trailing_header_address
    (h : heap) (b : Buffer.t) (D N i : Z) :
  0 < sizeof_pkthdr_t ->
  0 < Buffer.buf b ->
  0 <= D ->
  D + N * sizeof_pkthdr_t <= Buffer.class_size b ->
  Buffer.buf b + Buffer.class_size b + sizeof_size_t <= size_t_modulus ->
  1 <= i < N ->
  exists m a,
    MsgBuffer_owning b D N h = Some (m, h)
    /\ buf m = Buffer.buf b + sizeof_pkthdr_t
    /\ get_pkthdr_n m i = Some a
    /\ a = buf m + round_up sizeof_size_t D + (i - 1) * sizeof_pkthdr_t
    /\ a = Buffer.buf b + sizeof_pkthdr_t + round_up sizeof_size_t D
           + (i - 1) * sizeof_pkthdr_t
    /\ buf m + D <= a.
Proof.
  intros HS Hb HD Hcap Hrange Hi.
  pose proof (get_pkthdr_n_owning b D N i HS Hb HD Hcap Hrange Hi) as Hn.
  unfold sizeof_size_t in Hrange.
  assert (HNS : sizeof_pkthdr_t <= N * sizeof_pkthdr_t) by nia.
  assert (HiS : 0 <= (i - 1) * sizeof_pkthdr_t) by nia.
  destruct (round_up_word_bounds D HD ltac:(lia)) as (_ & Hru & _).
  do 2 eexists. split.
  { apply MsgBuffer_owning_ok; unfold nullptr; lia. }
  cbn [buf]. unfold ptr_add. rewrite wrap_small by lia.
  split; [reflexivity|].
  split.
  { unfold ptr_add in Hn. rewrite wrap_small in Hn by lia. exact Hn. }
  repeat split; lia.
Qed.

(** C3.  [resize(d', n')] with [d' <= D] and [n' <= N] writes no memory and
    changes only [data_size] and [num_pkts]: the magic in [pkthdr_0], the
    header pointers, [buf], [buffer], [max_data_size], [max_num_pkts] and the
    progress counter are as before the call. *)
Theorem resize_changes_only_sizes
    (h : heap) (m : MsgBuffer) (d n : Z) :
  d <= max_data_size m ->
  n <= max_num_pkts m ->
  exists m',
    resize m d n h = Some (m', h)
    /\ data_size m' = d
    /\ num_pkts m' = n
    /\ magic (h (get_pkthdr_0 m')) = magic (h (get_pkthdr_0 m))
    /\ is_valid h m' = is_valid h m
    /\ get_pkthdr_0 m' = get_pkthdr_0 m
    /\ (forall i, get_pkthdr_n m' i = get_pkthdr_n m i)
    /\ buf m' = buf m
    /\ buffer m' = buffer m
    /\ max_data_size m' = max_data_size m
    /\ max_num_pkts m' = max_num_pkts m
    /\ pkts_queued m' = pkts_queued m
    /\ pkts_rcvd m' = pkts_rcvd m.
Proof.
  intros Hd Hn. eexists. split.
  { rewrite resize_run.
    destruct (Z.leb_spec d (max_data_size m)); [|lia].
    destruct (Z.leb_spec n (max_num_pkts m)); [|lia].
    reflexivity. }
  repeat split.
Qed.

(** C6.  [is_valid()] is true if and only if [buf] is not null and the magic
    of the header right before [buf] is the magic constant. *)
Theorem is_valid_iff_nonnull_and_magic (h : heap) (m : MsgBuffer) :
  (is_valid h m = true
   <-> buf m <> nullptr /\ magic (h (get_pkthdr_0 m)) = kPktHdrMagic)
  /\ get_pkthdr_0 m = wrap (buf m - sizeof_pkthdr_t).
Proof.
  split; [apply is_valid_true_iff | reflexivity].
Qed.

(** C7.  The RX-borrow constructor, given a packet whose header lies in the
    address space, yields [max_num_pkts = num_pkts = 1], the invalid backing
    buffer, [buf] one header past the packet start, and an object that is
    valid exactly when the packet's header carries the magic constant. *)
Theorem rx_ctor_wraps_one_packet (h : heap) (pkt D : Z) :
  0 < sizeof_pkthdr_t ->
  0 <= pkt ->
  pkt + sizeof_pkthdr_t < size_t_modulus ->
  exists m,
    MsgBuffer_rx pkt D h = Some (m, h)
    /\ max_num_pkts m = 1
    /\ num_pkts m = 1
    /\ buffer m = get_invalid_buffer
    /\ buf m = pkt + sizeof_pkthdr_t
    /\ get_pkthdr_0 m = pkt
    /\ (is_valid h m = true <-> magic (h pkt) = kPktHdrMagic).
Proof.
  intros HS Hpkt Hrange.
  assert (Hbuf : ptr_add pkt sizeof_pkthdr_t = pkt + sizeof_pkthdr_t).
  { unfold ptr_add. apply wrap_small. lia. }
  eexists. split.
  { rewrite MsgBuffer_rx_run, Hbuf.
    destruct (Z.eqb_spec (pkt + sizeof_pkthdr_t) nullptr) as [Hc | _];
      [unfold nullptr in Hc; lia | reflexivity]. }
  assert (Hp0 : get_pkthdr_0
                  {| buf := pkt + sizeof_pkthdr_t;
                     buffer := get_invalid_buffer;
                     max_data_size := D; data_size := D;
                     max_num_pkts := 1; num_pkts := 1; pkts_queued := 0 |}
                = pkt).
  { unfold get_pkthdr_0. cbn [buf]. rewrite <- Hbuf. apply ptr_sub_add. lia. }
  repeat (split; [reflexivity|]).
  split; [exact Hp0|].
  rewrite is_valid_true_iff, Hp0. cbn [buf]. unfold nullptr.
  split; [intros [_ Hm]; exact Hm | intros Hm; split; [lia | exact Hm]].
Qed.

(** C8.  With a non-null backing buffer, [max_num_pkts >= 1] and a class size
    of at least [max_data_size + max_num_pkts * sizeof(pkthdr)], none of the
    owning constructor's assertions fires: it always returns an object, and
    leaves memory as it was. *)
Theorem owning_ctor_never_fails (h : heap) (b : Buffer.t) (D N : Z) :
  0 < sizeof_pkthdr_t ->
  Buffer.buf b <> nullptr ->
  0 <= D -> 1 <= N ->
  D + N * sizeof_pkthdr_t <= Buffer.class_size b ->
  Buffer.class_size b < size_t_modulus ->
  exists m, MsgBuffer_owning b D N h = Some (m, h).
Proof.
  intros HS Hnn HD HN Hcap Hcs. eexists.
  apply MsgBuffer_owning_ok; assumption.
Qed.

(** C10.  Both constructors leave the message buffer at its maximum logical
    size with a zero progress counter: [data_size = max_data_size] and
    [num_pkts = max_num_pkts] ([= 1] for the RX-borrow constructor); a later
    [resize] is what shrinks the logical size. *)
Theorem ctors_start_at_max_size
    (h : heap) (b : Buffer.t) (pkt D N d n : Z) :
  0 < sizeof_pkthdr_t ->
  Buffer.buf b <> nullptr ->
  0 <= D -> 1 <= N ->
  D + N * sizeof_pkthdr_t <= Buffer.class_size b ->
  Buffer.class_size b < size_t_modulus ->
  0 <= pkt -> pkt + sizeof_pkthdr_t < size_t_modulus ->
  (exists m,
      MsgBuffer_owning b D N h = Some (m, h)
      /\ max_data_size m = D /\ data_size m = D
      /\ max_num_pkts m = N /\ num_pkts m = N
      /\ pkts_queued m = 0 /\ pkts_rcvd m = 0
      /\ (d <= D -> n <= N ->
          exists m', resize m d n h = Some (m', h)
                     /\ data_size m' = d /\ num_pkts m' = n))
  /\ (exists m,
         MsgBuffer_rx pkt D h = Some (m, h)
         /\ max_data_size m = D /\ data_size m = D
         /\ max_num_pkts m = 1 /\ num_pkts m = 1
         /\ pkts_queued m = 0 /\ pkts_rcvd m = 0
         /\ (d <= D -> n <= 1 ->
             exists m', resize m d n h = Some (m', h)
                        /\ data_size m' = d /\ num_pkts m' = n)).
Proof.
  intros HS Hnn HD HN Hcap Hcs Hpkt Hrange.
  assert (Hresize : forall m : MsgBuffer,
             d <= max_data_size m -> n <= max_num_pkts m ->
             exists m', resize m d n h = Some (m', h)
                        /\ data_size m' = d /\ num_pkts m' = n).
  { intros m Hd Hn. eexists. split.
    - rewrite resize_run.
      destruct (Z.leb_spec d (max_data_size m)); [|lia].
      destruct (Z.leb_spec n (max_num_pkts m)); [|lia].
      reflexivity.
    - split; reflexivity. }
  split.
  - eexists. split; [apply MsgBuffer_owning_ok; assumption|].
    repeat (split; [reflexivity|]).
    intros Hd Hn. apply Hresize; assumption.
  - eexists. split.
    { rewrite MsgBuffer_rx_run. unfold ptr_add.
      rewrite wrap_small by lia.
      destruct (Z.eqb_spec (pkt + sizeof_pkthdr_t) nullptr) as [Hc | _];
        [unfold nullptr in Hc; lia | reflexivity]. }
    repeat (split; [reflexivity|]).
    intros Hd Hn. apply Hresize; assumption.
Qed.

End MsgBufferClaims.

(** ** Control-transport peers *)

(** What [sm_is_peer_mode_server] computes. *)
Lemma sm_is_peer_mode_server_spec (e : ENetPeer) :
  (sm_is_peer_mode_server e = true <-> data e = nullptr)
  /\ (sm_is_peer_mode_server e = false <-> data e <> nullptr).
Proof.
  unfold sm_is_peer_mode_server.
  destruct (Z.eqb_spec (data e) nullptr) as [Heq | Hne]; split; split;
    intros; try congruence; try contradiction.
Qed.

(** The invariant holds before any event. *)
Lemma sm_peers_ok_new : sm_peers_ok SmThreadCtx_new.
Proof.
  split.
  - intros p lp Hp. cbn in Hp. rewrite lookup_empty in Hp. discriminate.
  - intros p1 p2 lp1 lp2 Hp1. cbn in Hp1. rewrite lookup_empty in Hp1.
    discriminate.
Qed.

(** Rewriting metadata that is already allocated keeps the invariant. *)
Lemma sm_peers_ok_update_data
    (ctx : SmThreadCtx) (a : Z) (d : SmENetPeerData)
    (names : gmap string Z) (ips : gmap Z string) :
  sm_peers_ok ctx ->
  is_Some (peer_data ctx !! a) ->
  sm_peers_ok {| enet_peers := enet_peers ctx;
                 peer_data := <[a := d]> (peer_data ctx);
                 name_map := names;
                 ip_map := ips |}.
Proof.
  intros [Hdata Hinj] Ha. split; cbn [enet_peers peer_data].
  - intros p lp Hp. specialize (Hdata p lp Hp).
    destruct (origin lp); [exact Hdata|].
    destruct Hdata as [Hnn Hal]. split; [exact Hnn|].
    rewrite lookup_insert_is_Some. 
    destruct (decide (a = data (enet_peer lp))); [left; assumption | right; split; assumption].
  - exact Hinj.
Qed.

(** Each step of the session-management thread keeps the invariant. *)
Lemma sm_step_peers_ok (ev : sm_event) (ctx ctx' : SmThreadCtx) :
  sm_peers_ok ctx ->
  sm_step ev ctx = Some ctx' ->
  sm_peers_ok ctx'.
Proof.
  intros Hok Hstep. pose proof Hok as [Hdata Hinj].
  destruct ev as [wi hostname ip new_peer new_data | peer ip | peer pkt | peer];
    cbn [sm_step] in Hstep.
  - (* TX drain *)
    unfold sm_thread_tx_one in Hstep.
    destruct (name_map ctx !! hostname) as [peer|].
    + destruct (enet_peers ctx !! peer) as [lp|] eqn:Hlp; [|discriminate].
      destruct (peer_data ctx !! data (enet_peer lp)) as [d|] eqn:Hd;
        [|discriminate].
      destruct (connected d); injection Hstep as <-; [exact Hok|].
      apply sm_peers_ok_update_data; [exact Hok | rewrite Hd; eauto].
    + destruct (enet_peers ctx !! new_peer) eqn:Hfresh; [discriminate|].
      destruct (peer_data ctx !! new_data) eqn:Hunused; [discriminate|].
      destruct (Z.eqb_spec new_data nullptr) as [|Hnn]; [discriminate|].
      injection Hstep as <-. split; cbn [enet_peers peer_data].
      * intros p lp Hp. apply lookup_insert_Some in Hp as [[<- <-] | [Hne Hp]].
        { cbn. split; [exact Hnn|]. rewrite lookup_insert_eq. eauto. }
        specialize (Hdata p lp Hp). destruct (origin lp); [exact Hdata|].
        destruct Hdata as [Hnn' Hal]. split; [exact Hnn'|].
        rewrite lookup_insert_is_Some.
        destruct (decide (new_data = data (enet_peer lp)));
          [left; assumption | right; split; assumption].
      * intros p1 p2 lp1 lp2 Hp1 Hp2 Ho1 Ho2 Heq.
        apply lookup_insert_Some in Hp1 as [[<- <-] | [Hne1 Hp1]];
          apply lookup_insert_Some in Hp2 as [[<- <-] | [Hne2 Hp2]].
        { reflexivity. }
        { exfalso. specialize (Hdata p2 lp2 Hp2). rewrite Ho2 in Hdata.
          destruct Hdata as [_ [d Hd]]. cbn in Heq. rewrite <- Heq in Hd.
          congruence. }
        { exfalso. specialize (Hdata p1 lp1 Hp1). rewrite Ho1 in Hdata.
          destruct Hdata as [_ [d Hd]]. cbn in Heq. rewrite Heq in Hd.
          congruence. }
        { exact (Hinj p1 p2 lp1 lp2 Hp1 Hp2 Ho1 Ho2 Heq). }
  - (* connect *)
    unfold sm_thread_handle_connect in Hstep.
    destruct (enet_peers ctx !! peer) as [lp|] eqn:Hlp.
    + destruct (sm_is_peer_mode_server (enet_peer lp));
        [injection Hstep as <-; exact Hok|].
      destruct (peer_data ctx !! data (enet_peer lp)) as [d|] eqn:Hd;
        [|discriminate].
      injection Hstep as <-.
      apply sm_peers_ok_update_data; [exact Hok | rewrite Hd; eauto].
    + injection Hstep as <-. split; cbn [enet_peers peer_data].
      * intros p lp Hp. apply lookup_insert_Some in Hp as [[<- <-] | [Hne Hp]];
          [reflexivity | exact (Hdata p lp Hp)].
      * intros p1 p2 lp1 lp2 Hp1 Hp2 Ho1 Ho2 Heq.
        apply lookup_insert_Some in Hp1 as [[<- <-] | [Hne1 Hp1]];
          [discriminate Ho1|].
        apply lookup_insert_Some in Hp2 as [[<- <-] | [Hne2 Hp2]];
          [discriminate Ho2|].
        exact (Hinj p1 p2 lp1 lp2 Hp1 Hp2 Ho1 Ho2 Heq).
  - (* receive *)
    injection Hstep as <-. exact Hok.
  - (* disconnect *)
    unfold sm_thread_handle_disconnect in Hstep.
    destruct (enet_peers ctx !! peer) as [lp|] eqn:Hlp; [|discriminate].
    destruct (sm_is_peer_mode_server (enet_peer lp)) eqn:Hmode.
    + injection Hstep as <-. split; cbn [enet_peers peer_data].
      * intros p lp' Hp. apply lookup_delete_Some in Hp as [_ Hp].
        exact (Hdata p lp' Hp).
      * intros p1 p2 lp1 lp2 Hp1 Hp2.
        apply lookup_delete_Some in Hp1 as [_ Hp1].
        apply lookup_delete_Some in Hp2 as [_ Hp2].
        exact (Hinj p1 p2 lp1 lp2 Hp1 Hp2).
    + destruct (peer_data ctx !! data (enet_peer lp)) as [d|] eqn:Hd;
        [|discriminate].
      injection Hstep as <-.
      assert (Hout : origin lp = Outbound).
      { pose proof (Hdata peer lp Hlp) as Hlpd.
        destruct (origin lp); [|reflexivity].
        apply (proj2 (sm_is_peer_mode_server_spec (enet_peer lp))) in Hmode.
        contradiction. }
      split; cbn [enet_peers peer_data].
      * intros p lp' Hp. apply lookup_delete_Some in Hp as [Hne Hp].
        pose proof (Hdata p lp' Hp) as Hlpd.
        destruct (origin lp') eqn:Ho; [exact Hlpd|].
        destruct Hlpd as [Hnn Hal]. split; [exact Hnn|].
        rewrite lookup_delete_ne; [exact Hal|].
        intros Heq. apply Hne.
        exact (Hinj peer p lp lp' Hlp Hp Hout Ho Heq).
      * intros p1 p2 lp1 lp2 Hp1 Hp2.
        apply lookup_delete_Some in Hp1 as [_ Hp1].
        apply lookup_delete_Some in Hp2 as [_ Hp2].
        exact (Hinj p1 p2 lp1 lp2 Hp1 Hp2).
Qed.

Lemma sm_run_peers_ok (evs : list sm_event) (ctx ctx' : SmThreadCtx) :
  sm_peers_ok ctx ->
  sm_run evs ctx = Some ctx' ->
  sm_peers_ok ctx'.
Proof.
  revert ctx. induction evs as [|ev evs IH]; intros ctx Hok Hrun;
    cbn [sm_run] in Hrun.
  - injection Hrun as <-. exact Hok.
  - destruct (sm_step ev ctx) as [ctx1|] eqn:Hstep; [|discriminate].
    exact (IH ctx1 (sm_step_peers_ok ev ctx ctx1 Hok Hstep) Hrun).
Qed.

(** C9.  For every peer the session-management thread holds, after any
    sequence of TX items and connect, receive and disconnect events,
    [sm_is_peer_mode_server(e)] is true if and only if the peer's data
    pointer is null, and that is so if and only if the peer is inbound
    (server-mode); every outbound (client-mode) peer carries a non-null data
    pointer to allocated metadata. *)
Theorem sm_peer_mode_discriminator
    (evs : list sm_event) (ctx : SmThreadCtx) (p : Z) (lp : LivePeer) :
  sm_run evs SmThreadCtx_new = Some ctx ->
  enet_peers ctx !! p = Some lp ->
  (sm_is_peer_mode_server (enet_peer lp) = true
   <-> data (enet_peer lp) = nullptr)
  /\ (sm_is_peer_mode_server (enet_peer lp) = true <-> origin lp = Inbound)
  /\ (sm_is_peer_mode_server (enet_peer lp) = false <-> origin lp = Outbound)
  /\ (origin lp = Outbound ->
      data (enet_peer lp) <> nullptr
      /\ is_Some (peer_data ctx !! data (enet_peer lp))).
Proof.
  intros Hrun Hp.
  destruct (sm_run_peers_ok evs _ ctx sm_peers_ok_new Hrun) as [Hdata _].
  specialize (Hdata p lp Hp).
  destruct (sm_is_peer_mode_server_spec (enet_peer lp)) as [Htrue Hfalse].
  split; [exact Htrue|].
  destruct (origin lp).
  - split; [split; [reflexivity | intros _; apply Htrue; exact Hdata]|].
    split; [|discriminate].
    split; [|discriminate].
    intros Hf. apply Hfalse in Hf. contradiction.
  - destruct Hdata as [Hnn Hal].
    split.
    { split; [|discriminate]. intros Ht. apply Htrue in Ht. contradiction. }
    split; [split; [reflexivity | intros _; apply Hfalse; exact Hnn]|].
    intros _. split; assumption.
Qed.

(** ** Request-function registration *)

Section NexusClaims.

Context `{E : ErrnoTable}.

(** The result of [register_req_func], case by case. *)
Lemma register_req_func_closed (n : Nexus) (rt : Z) (f : ReqFunc) :
  req_func_registration_allowed n = false ->
  register_req_func rt f n = (- errno_of RegistrationClosed, n).
Proof. intros Hc. unfold register_req_func. rewrite Hc. reflexivity. Qed.

Lemma register_req_func_occupied (n : Nexus) (rt : Z) (f : ReqFunc) (g : Z) :
  req_func_registration_allowed n = true ->
  req_func_arr n !! rt = Some g ->
  register_req_func rt f n = (- errno_of SlotOccupied, n).
Proof.
  intros Ha Hs. unfold register_req_func. rewrite Ha, Hs. reflexivity.
Qed.

Lemma register_req_func_invalid (n : Nexus) (rt : Z) :
  req_func_registration_allowed n = true ->
  req_func_arr n !! rt = None ->
  register_req_func rt None n = (- errno_of InvalidHandler, n).
Proof.
  intros Ha Hs. unfold register_req_func. rewrite Ha, Hs. reflexivity.
Qed.

Lemma register_req_func_installs (n : Nexus) (rt g : Z) :
  req_func_registration_allowed n = true ->
  req_func_arr n !! rt = None ->
  register_req_func rt (Some g) n =
  (0, {| num_bg_threads := num_bg_threads n;
         req_func_arr := <[rt := g]> (req_func_arr n);
         req_func_registration_allowed := req_func_registration_allowed n;
         reg_hooks_arr := reg_hooks_arr n;
         sm_tx_list_ref := sm_tx_list_ref n;
         bg_req_list_refs := bg_req_list_refs n |}).
Proof.
  intros Ha Hs. unfold register_req_func. rewrite Ha, Hs. reflexivity.
Qed.

(** A successful [register_hook] closes the window and keeps the table. *)
Lemma register_hook_closes (hook installed : Hook) (n n' : Nexus) :
  register_hook hook n = Some (installed, n') ->
  req_func_registration_allowed n' = false
  /\ req_func_arr n' = req_func_arr n.
Proof.
  unfold register_hook.
  destruct (reg_hooks_arr n !! rpc_id hook); [discriminate|].
  intros Heq. injection Heq as _ <-. split; reflexivity.
Qed.

(** No call other than [register_hook] touches the flag. *)
Lemma step_keeps_flag (c : nexus_call) (n n' : Nexus) :
  is_register_hook c = false ->
  step c n = Some n' ->
  req_func_registration_allowed n' = req_func_registration_allowed n.
Proof.
  destruct c as [rt f | hook | hook | id]; cbn [is_register_hook step];
    intros Hc Hs; try discriminate; injection Hs as <-; try reflexivity.
  unfold register_req_func.
  destruct (negb (req_func_registration_allowed n)); [reflexivity|].
  destruct (req_func_arr n !! rt); [reflexivity|].
  destruct f; reflexivity.
Qed.

(** Once the window is closed, every call keeps it closed and keeps the
    request-function table. *)
Lemma step_closed (c : nexus_call) (n n' : Nexus) :
  req_func_registration_allowed n = false ->
  step c n = Some n' ->
  req_func_registration_allowed n' = false
  /\ req_func_arr n' = req_func_arr n.
Proof.
  intros Hc.
  destruct c as [rt f | hook | hook | id]; cbn [step]; intros Hs.
  - rewrite register_req_func_closed in Hs by exact Hc.
    injection Hs as <-. split; [exact Hc | reflexivity].
  - destruct (register_hook hook n) as [[installed n1]|] eqn:Hr;
      [|discriminate].
    cbn in Hs. injection Hs as <-.
    exact (register_hook_closes _ _ _ _ Hr).
  - injection Hs as <-. split; [exact Hc | reflexivity].
  - injection Hs as <-. split; [exact Hc | reflexivity].
Qed.

Lemma run_closed (cs : list nexus_call) (n n' : Nexus) :
  req_func_registration_allowed n = false ->
  run cs n = Some n' ->
  req_func_registration_allowed n' = false
  /\ req_func_arr n' = req_func_arr n.
Proof.
  revert n. induction cs as [|c cs IH]; intros n Hc Hr; cbn [run] in Hr.
  - injection Hr as <-. split; [exact Hc | reflexivity].
  - destruct (step c n) as [n1|] eqn:Hs; [|discriminate].
    destruct (step_closed c n n1 Hc Hs) as [Hc1 Ht1].
    destruct (IH n1 Hc1 Hr) as [Hc' Ht'].
    split; [exact Hc' | congruence].
Qed.

(** Without a [register_hook] among the calls, the flag stays as it was. *)
Lemma run_keeps_flag (cs : list nexus_call) (n n' : Nexus) :
  existsb is_register_hook cs = false ->
  run cs n = Some n' ->
  req_func_registration_allowed n' = req_func_registration_allowed n.
Proof.
  revert n. induction cs as [|c cs IH]; intros n Hno Hr; cbn [run] in Hr.
  - injection Hr as <-. reflexivity.
  - cbn [existsb] in Hno. apply orb_false_iff in Hno as [Hc Hcs].
    destruct (step c n) as [n1|] eqn:Hs; [|discriminate].
    rewrite (IH n1 Hcs Hr). exact (step_keeps_flag c n n1 Hc Hs).
Qed.

(** An occupied slot keeps its handler across every call. *)
Lemma step_keeps_slot (c : nexus_call) (n n' : Nexus) (rt g : Z) :
  step c n = Some n' ->
  req_func_arr n !! rt = Some g ->
  req_func_arr n' !! rt = Some g.
Proof.
  destruct c as [rt0 f | hook | hook | id]; cbn [step]; intros Hs Hg.
  - injection Hs as <-. unfold register_req_func.
    destruct (negb (req_func_registration_allowed n)); [exact Hg|].
    destruct (req_func_arr n !! rt0) eqn:Hrt0; [exact Hg|].
    destruct f as [g0|]; [|exact Hg].
    cbn [snd req_func_arr].
    rewrite lookup_insert_ne; [exact Hg|].
    intros ->. congruence.
  - destruct (register_hook hook n) as [[installed n1]|] eqn:Hr;
      [|discriminate].
    cbn in Hs. injection Hs as <-.
    destruct (register_hook_closes _ _ _ _ Hr) as [_ ->]. exact Hg.
  - injection Hs as <-. exact Hg.
  - injection Hs as <-. exact Hg.
Qed.

Lemma run_keeps_slot (cs : list nexus_call) (n n' : Nexus) (rt g : Z) :
  run cs n = Some n' ->
  req_func_arr n !! rt = Some g ->
  req_func_arr n' !! rt = Some g.
Proof.
  revert n. induction cs as [|c cs IH]; intros n Hr Hg; cbn [run] in Hr.
  - injection Hr as <-. exact Hg.
  - destruct (step c n) as [n1|] eqn:Hs; [|discriminate].
    apply (IH n1 Hr). exact (step_keeps_slot c n n1 rt g Hs Hg).
Qed.

(** C4.  Starting with the window open and no [register_hook] so far, the
    first successful [register_hook] takes the flag from true to false; no
    later call sets it back, the request-function table stays as it was at
    that point, and every later [register_req_func] returns the
    registration-closed error and leaves the Nexus as it found it. *)
Theorem registration_closes_at_first_hook
    (n0 n n1 n2 : Nexus) (pre post : list nexus_call)
    (hook installed : Hook) :
  req_func_registration_allowed n0 = true ->
  existsb is_register_hook pre = false ->
  run pre n0 = Some n ->
  register_hook hook n = Some (installed, n1) ->
  run post n1 = Some n2 ->
  req_func_registration_allowed n = true
  /\ req_func_registration_allowed n1 = false
  /\ req_func_registration_allowed n2 = false
  /\ req_func_arr n1 = req_func_arr n
  /\ req_func_arr n2 = req_func_arr n
  /\ forall rt f,
       register_req_func rt f n2 = (- errno_of RegistrationClosed, n2).
Proof.
  intros Hopen Hpre Hrun Hhook Hpost.
  destruct (register_hook_closes _ _ _ _ Hhook) as [Hc1 Ht1].
  destruct (run_closed post n1 n2 Hc1 Hpost) as [Hc2 Ht2].
  split; [rewrite (run_keeps_flag pre n0 n Hpre Hrun); exact Hopen|].
  split; [exact Hc1|]. split; [exact Hc2|]. split; [exact Ht1|].
  split; [congruence|].
  intros rt f. apply register_req_func_closed. exact Hc2.
Qed.

(** C5.  [register_req_func] returns 0 exactly when registration is allowed,
    the slot is empty and the handler is not empty, and then installs the
    handler in that slot and nothing else; in the three failure cases it
    returns the negative errno of the case and leaves the Nexus unchanged.
    After a success, every later call on the same request type fails and
    changes nothing. *)
Theorem register_req_func_once
    (n : Nexus) (rt : Z) (f : ReqFunc) :
  (forall e, 0 < errno_of e) ->
  let r := fst (register_req_func rt f n) in
  let n' := snd (register_req_func rt f n) in
  (r = 0 <-> req_func_registration_allowed n = true
             /\ req_func_arr n !! rt = None
             /\ f <> None)
  /\ (r = 0 ->
      req_func_arr n' !! rt = f
      /\ (forall rt', rt' <> rt -> req_func_arr n' !! rt' = req_func_arr n !! rt')
      /\ req_func_registration_allowed n' = true
      /\ reg_hooks_arr n' = reg_hooks_arr n)
  /\ (req_func_registration_allowed n = false ->
      r = - errno_of RegistrationClosed /\ n' = n)
  /\ (req_func_registration_allowed n = true ->
      is_Some (req_func_arr n !! rt) ->
      r = - errno_of SlotOccupied /\ n' = n)
  /\ (req_func_registration_allowed n = true ->
      req_func_arr n !! rt = None -> f = None ->
      r = - errno_of InvalidHandler /\ n' = n)
  /\ (r <> 0 -> r < 0 /\ n' = n)
  /\ (r = 0 ->
      forall (cs : list nexus_call) (n2 : Nexus) (f2 : ReqFunc),
        run cs n' = Some n2 ->
        fst (register_req_func rt f2 n2) < 0
        /\ snd (register_req_func rt f2 n2) = n2).
Proof.
  intros Hpos r n'.
  pose proof (Hpos RegistrationClosed) as Hp1.
  pose proof (Hpos SlotOccupied) as Hp2.
  pose proof (Hpos InvalidHandler) as Hp3.
  destruct (req_func_registration_allowed n) eqn:Ha.
  2: { subst r n'. rewrite register_req_func_closed by exact Ha.
       cbn [fst snd]. failure_case. }
  destruct (req_func_arr n !! rt) as [g|] eqn:Hs.
  { subst r n'. rewrite (register_req_func_occupied n rt f g Ha Hs).
    cbn [fst snd]. failure_case. }
  destruct f as [g|].
  2: { subst r n'. rewrite (register_req_func_invalid n rt Ha Hs).
       cbn [fst snd]. failure_case. }
  subst r n'. rewrite (register_req_func_installs n rt g Ha Hs).
  cbn [fst snd req_func_arr req_func_registration_allowed reg_hooks_arr].
  split.
  { split; [intros _; repeat split; discriminate | reflexivity]. }
  split.
  { intros _. split; [apply lookup_insert_eq|].
    split; [intros rt' Hne; apply lookup_insert_ne; congruence|].
    split; [exact Ha | reflexivity]. }
  split; [intros Hc; discriminate Hc|].
  split; [intros _ [x Hx]; discriminate Hx|].
  split; [intros _ _ Hc; discriminate Hc|].
  split; [intros Hc; contradiction|].
  intros _ cs n2 f2 Hrun.
  assert (Hslot : req_func_arr n2 !! rt = Some g).
  { apply (run_keeps_slot cs _ n2 rt g Hrun). cbn [req_func_arr].
    apply lookup_insert_eq. }
  destruct (req_func_registration_allowed n2) eqn:Ha2.
  - rewrite (register_req_func_occupied n2 rt f2 g Ha2 Hslot).
    cbn [fst snd]. split; [lia | reflexivity].
  - rewrite register_req_func_closed by exact Ha2.
    cbn [fst snd]. split; [lia | reflexivity].
Qed.

End NexusClaims.

(** ** The model run on concrete inputs *)

(** Rounding to the word size: aligned sizes stay, others go up. *)
Example round_up_aligned : round_up sizeof_size_t 4096 = 4096.
Proof. reflexivity. Qed.

Example round_up_unaligned : round_up sizeof_size_t 4097 = 4104.
Proof. reflexivity. Qed.

(** Scenario S3 with 16-byte headers and the backing buffer at 65536: the
    payload starts at 65552 and the two trailing headers follow the 4096
    payload bytes. *)
Example S3_trailing_headers :
  get_pkthdr_0 (P := ex_platform) ex_msgbuf = 65536
  /\ get_pkthdr_n (P := ex_platform) ex_msgbuf 1 = Some 69648
  /\ get_pkthdr_n (P := ex_platform) ex_msgbuf 2 = Some 69664.
Proof. repeat split; reflexivity. Qed.

(** [get_pkthdr_n(0)] trips the assertion of the accessor. *)
Example get_pkthdr_n_zero_asserts :
  get_pkthdr_n (P := ex_platform) ex_msgbuf 0 = None.
Proof. reflexivity. Qed.

(** A null backing buffer, or one too small, trips the constructor. *)
Example owning_ctor_null_buffer_asserts :
  MsgBuffer_owning (P := ex_platform) (Buffer.mk nullptr 8192) 4096 3
                   (heap_of_magic 11) = None.
Proof. reflexivity. Qed.

Example owning_ctor_small_buffer_asserts :
  MsgBuffer_owning (P := ex_platform) (Buffer.mk 65536 4096) 4096 3
                   (heap_of_magic 11) = None.
Proof. reflexivity. Qed.

(** Resizing past the allocation trips the assertion of [resize]. *)
Example resize_past_max_asserts :
  resize ex_msgbuf 4097 1 (heap_of_magic 11) = None.
Proof. reflexivity. Qed.

(** Scenario S5: with the hook of endpoint 5 registered, a second handler is
    refused with the registration-closed errno, and registering the same
    endpoint again trips the assertion. *)
Example S5_second_handler_refused :
  register_req_func (E := ex_errnos) 2 (Some 2000) ex_nexus_closed
  = (-1, ex_nexus_closed).
Proof. reflexivity. Qed.

Example S5_hook_registered_twice_asserts :
  register_hook ex_hook ex_nexus_closed = None.
Proof. reflexivity. Qed.

(** C1, as stated, fails: on memory that holds no magic, the owning
    constructor (preconditions met) returns a message buffer that is not
    valid, and whose [pkthdr_0] does not carry the magic constant. *)
Lemma owning_ctor_magic_counterexample :
  (Buffer.buf ex_buffer <> nullptr
   /\ 1 <= 3
   /\ 4096 + 3 * sizeof_pkthdr_t (Platform := ex_platform)
      <= Buffer.class_size ex_buffer)
  /\ MsgBuffer_owning (P := ex_platform) ex_buffer 4096 3 (heap_of_magic 0)
     = Some (ex_msgbuf, heap_of_magic 0)
  /\ is_valid (P := ex_platform) (heap_of_magic 0) ex_msgbuf = false
  /\ magic (heap_of_magic 0 (get_pkthdr_0 (P := ex_platform) ex_msgbuf))
     <> kPktHdrMagic (Platform := ex_platform).
Proof.
  split; [repeat split; by_evaluation|].
  split; [reflexivity|]. split; [reflexivity|]. by_evaluation.
Qed.

Lemma owning_ctor_valid_iff_magic_present_witness :
  (0 < sizeof_pkthdr_t (Platform := ex_platform)
   /\ 0 < Buffer.buf ex_buffer
   /\ Buffer.buf ex_buffer + Buffer.class_size ex_buffer < size_t_modulus
   /\ 0 <= 4096 /\ 1 <= 3
   /\ 4096 + 3 * sizeof_pkthdr_t (Platform := ex_platform)
      <= Buffer.class_size ex_buffer)
  /\ exists m,
       MsgBuffer_owning (P := ex_platform) ex_buffer 4096 3 (heap_of_magic 11)
       = Some (m, heap_of_magic 11)
       /\ get_pkthdr_0 (P := ex_platform) m = Buffer.buf ex_buffer
       /\ (is_valid (P := ex_platform) (heap_of_magic 11) m = true
           <-> magic (heap_of_magic 11 (Buffer.buf ex_buffer))
               = kPktHdrMagic (Platform := ex_platform)).
Proof.
  split; [repeat split; by_evaluation|].
  apply (owning_ctor_valid_iff_magic_present
           (P := ex_platform) (heap_of_magic 11) ex_buffer 4096 3);
    by_evaluation.
Defined.

(** C2, as stated, fails when [base] is the start of the backing buffer: in
    scenario S3 with 16-byte headers, [get_pkthdr_n(1)] is at
    [base + 16 + 4096], not at [base + 4096]; the latter address lies inside
    the payload region. *)
Lemma trailing_header_address_counterexample :
  MsgBuffer_owning (P := ex_platform) ex_buffer 4096 3 (heap_of_magic 11)
  = Some (ex_msgbuf, heap_of_magic 11)
  /\ get_pkthdr_n (P := ex_platform) ex_msgbuf 1
     = Some (Buffer.buf ex_buffer + 16 + 4096)
  /\ get_pkthdr_n (P := ex_platform) ex_msgbuf 1
     <> Some (Buffer.buf ex_buffer + round_up sizeof_size_t 4096
              + (1 - 1) * sizeof_pkthdr_t (Platform := ex_platform))
  /\ get_pkthdr_n (P := ex_platform) ex_msgbuf 1
     <> Some (Buffer.buf ex_buffer + 4096)
  /\ buf ex_msgbuf <= Buffer.buf ex_buffer + 4096 < buf ex_msgbuf + 4096.
Proof.
  split; [reflexivity|]. split; [reflexivity|].
  split; [by_evaluation|]. split; [by_evaluation|].
  split; by_evaluation.
Qed.

Lemma trailing_header_address_witness :
  (0 < sizeof_pkthdr_t (Platform := ex_platform)
   /\ 0 < Buffer.buf ex_buffer
   /\ 0 <= 4096
   /\ 4096 + 3 * sizeof_pkthdr_t (Platform := ex_platform)
      <= Buffer.class_size ex_buffer
   /\ Buffer.buf ex_buffer + Buffer.class_size ex_buffer + sizeof_size_t
      <= size_t_modulus
   /\ 1 <= 2 < 3)
  /\ exists m a,
       MsgBuffer_owning (P := ex_platform) ex_buffer 4096 3 (heap_of_magic 11)
       = Some (m, heap_of_magic 11)
       /\ buf m = Buffer.buf ex_buffer + sizeof_pkthdr_t (Platform := ex_platform)
       /\ get_pkthdr_n (P := ex_platform) m 2 = Some a
       /\ a = buf m + round_up sizeof_size_t 4096
              + (2 - 1) * sizeof_pkthdr_t (Platform := ex_platform)
       /\ a = Buffer.buf ex_buffer + sizeof_pkthdr_t (Platform := ex_platform)
              + round_up sizeof_size_t 4096
              + (2 - 1) * sizeof_pkthdr_t (Platform := ex_platform)
       /\ buf m + 4096 <= a.
Proof.
  split; [repeat split; by_evaluation|].
  apply (trailing_header_address
           (P := ex_platform) (heap_of_magic 11) ex_buffer 4096 3 2);
    try by_evaluation.
  split; by_evaluation.
Defined.

Lemma resize_changes_only_sizes_witness :
  (100 <= max_data_size ex_msgbuf /\ 1 <= max_num_pkts ex_msgbuf)
  /\ exists m',
       resize ex_msgbuf 100 1 (heap_of_magic 11) = Some (m', heap_of_magic 11)
       /\ data_size m' = 100
       /\ num_pkts m' = 1
       /\ get_pkthdr_0 (P := ex_platform) m'
          = get_pkthdr_0 (P := ex_platform) ex_msgbuf
       /\ (forall i, get_pkthdr_n (P := ex_platform) m' i
                     = get_pkthdr_n (P := ex_platform) ex_msgbuf i)
       /\ max_data_size m' = 4096.
Proof.
  split; [split; by_evaluation|].
  destruct (resize_changes_only_sizes
              (P := ex_platform) (heap_of_magic 11) ex_msgbuf 100 1)
    as (m' & Hrun & Hd & Hn & _ & _ & Hp0 & Hpn & _ & _ & Hmax & _);
    [by_evaluation | by_evaluation |].
  exists m'. repeat split; assumption.
Defined.

Lemma rx_ctor_wraps_one_packet_witness :
  (0 < sizeof_pkthdr_t (Platform := ex_platform)
   /\ 0 <= 65536
   /\ 65536 + sizeof_pkthdr_t (Platform := ex_platform) < size_t_modulus)
  /\ exists m,
       MsgBuffer_rx (P := ex_platform) 65536 1472 (heap_of_magic 11)
       = Some (m, heap_of_magic 11)
       /\ max_num_pkts m = 1
       /\ num_pkts m = 1
       /\ buffer m = get_invalid_buffer (Platform := ex_platform)
       /\ buf m = 65536 + sizeof_pkthdr_t (Platform := ex_platform)
       /\ get_pkthdr_0 (P := ex_platform) m = 65536
       /\ (is_valid (P := ex_platform) (heap_of_magic 11) m = true
           <-> magic (heap_of_magic 11 65536)
               = kPktHdrMagic (Platform := ex_platform)).
Proof.
  split; [repeat split; by_evaluation|].
  apply (rx_ctor_wraps_one_packet
           (P := ex_platform) (heap_of_magic 11) 65536 1472);
    by_evaluation.
Defined.

Lemma owning_ctor_never_fails_witness :
  (0 < sizeof_pkthdr_t (Platform := ex_platform)
   /\ Buffer.buf ex_buffer <> nullptr
   /\ 0 <= 4096 /\ 1 <= 3
   /\ 4096 + 3 * sizeof_pkthdr_t (Platform := ex_platform)
      <= Buffer.class_size ex_buffer
   /\ Buffer.class_size ex_buffer < size_t_modulus)
  /\ exists m,
       MsgBuffer_owning (P := ex_platform) ex_buffer 4096 3 (heap_of_magic 0)
       = Some (m, heap_of_magic 0).
Proof.
  split; [repeat split; by_evaluation|].
  apply (owning_ctor_never_fails
           (P := ex_platform) (heap_of_magic 0) ex_buffer 4096 3);
    by_evaluation.
Defined.

Lemma ctors_start_at_max_size_witness :
  (0 < sizeof_pkthdr_t (Platform := ex_platform)
   /\ Buffer.buf ex_buffer <> nullptr
   /\ 0 <= 4096 /\ 1 <= 3
   /\ 4096 + 3 * sizeof_pkthdr_t (Platform := ex_platform)
      <= Buffer.class_size ex_buffer
   /\ Buffer.class_size ex_buffer < size_t_modulus
   /\ 0 <= 65536
   /\ 65536 + sizeof_pkthdr_t (Platform := ex_platform) < size_t_modulus)
  /\ (exists m,
         MsgBuffer_owning (P := ex_platform) ex_buffer 4096 3 (heap_of_magic 0)
         = Some (m, heap_of_magic 0)
         /\ data_size m = 4096 /\ num_pkts m = 3 /\ pkts_queued m = 0)
  /\ (exists m,
         MsgBuffer_rx (P := ex_platform) 65536 4096 (heap_of_magic 0)
         = Some (m, heap_of_magic 0)
         /\ data_size m = 4096 /\ num_pkts m = 1 /\ pkts_queued m = 0).
Proof.
  split; [repeat split; by_evaluation|].
  destruct (ctors_start_at_max_size
              (P := ex_platform) (heap_of_magic 0) ex_buffer 65536 4096 3 100 1)
    as [(m & Hrun & _ & Hd & _ & Hn & Hq & _) (m' & Hrun' & _ & Hd' & _ & Hn' & Hq' & _)];
    try by_evaluation.
  split; [exists m | exists m']; repeat split; assumption.
Defined.

Lemma registration_closes_at_first_hook_witness :
  (req_func_registration_allowed ex_nexus = true
   /\ existsb is_register_hook ex_calls_before = false
   /\ run (E := ex_errnos) ex_calls_before ex_nexus = Some ex_nexus_open
   /\ register_hook ex_hook ex_nexus_open
      = Some (ex_hook_installed, ex_nexus_closed)
   /\ run (E := ex_errnos) ex_calls_after ex_nexus_closed = Some ex_nexus_after)
  /\ req_func_registration_allowed ex_nexus_open = true
  /\ req_func_registration_allowed ex_nexus_closed = false
  /\ req_func_registration_allowed ex_nexus_after = false
  /\ req_func_arr ex_nexus_closed = req_func_arr ex_nexus_open
  /\ req_func_arr ex_nexus_after = req_func_arr ex_nexus_open
  /\ forall rt f,
       register_req_func (E := ex_errnos) rt f ex_nexus_after
       = (- errno_of (ErrnoTable := ex_errnos) RegistrationClosed,
          ex_nexus_after).
Proof.
  assert (Hhyps :
            req_func_registration_allowed ex_nexus = true
            /\ existsb is_register_hook ex_calls_before = false
            /\ run (E := ex_errnos) ex_calls_before ex_nexus = Some ex_nexus_open
            /\ register_hook ex_hook ex_nexus_open
               = Some (ex_hook_installed, ex_nexus_closed)
            /\ run (E := ex_errnos) ex_calls_after ex_nexus_closed
               = Some ex_nexus_after).
  { repeat split; vm_compute; reflexivity. }
  split; [exact Hhyps|].
  destruct Hhyps as (H0 & Hpre & Hrun & Hhook & Hpost).
  exact (registration_closes_at_first_hook
           (E := ex_errnos) ex_nexus ex_nexus_open ex_nexus_closed
           ex_nexus_after ex_calls_before ex_calls_after
           ex_hook ex_hook_installed H0 Hpre Hrun Hhook Hpost).
Defined.

Lemma register_req_func_once_witness :
  (forall e, 0 < errno_of (ErrnoTable := ex_errnos) e)
  /\ fst (register_req_func (E := ex_errnos) 3 (Some 1000) ex_nexus) = 0
  /\ req_func_arr (snd (register_req_func (E := ex_errnos) 3 (Some 1000) ex_nexus))
       !! 3 = Some 1000
  /\ forall (cs : list nexus_call) (n2 : Nexus) (f2 : ReqFunc),
       run (E := ex_errnos) cs
           (snd (register_req_func (E := ex_errnos) 3 (Some 1000) ex_nexus))
       = Some n2 ->
       fst (register_req_func (E := ex_errnos) 3 f2 n2) < 0
       /\ snd (register_req_func (E := ex_errnos) 3 f2 n2) = n2.
Proof.
  assert (Hpos : forall e, 0 < errno_of (ErrnoTable := ex_errnos) e).
  { intros e. destruct e; by_evaluation. }
  split; [exact Hpos|].
  destruct (register_req_func_once (E := ex_errnos) ex_nexus 3 (Some 1000) Hpos)
    as (Hzero & Hinst & _ & _ & _ & _ & Honce).
  assert (Hr : fst (register_req_func (E := ex_errnos) 3 (Some 1000) ex_nexus) = 0).
  { apply Hzero. repeat split; first [discriminate | vm_compute; reflexivity]. }
  split; [exact Hr|].
  split; [exact (proj1 (Hinst Hr)) | exact (Honce Hr)].
Defined.

(** * Further properties of message buffers *)

(** ** Rounding, for sizes that do not overflow *)

Lemma round_up_word_aligned (x : Z) :
  0 <= x -> x + 7 < size_t_modulus -> x mod sizeof_size_t = 0 ->
  round_up sizeof_size_t x = x.
Proof.
  intros Hx Hlt Hal.
  destruct (round_up_word_bounds x Hx Hlt) as (-> & _ & _).
  unfold sizeof_size_t in Hal.
  Z.div_mod_to_equations. lia.
Qed.

Lemma round_up_word_unaligned (x : Z) :
  0 <= x -> x + 7 < size_t_modulus -> x mod sizeof_size_t <> 0 ->
  round_up sizeof_size_t x = x + (sizeof_size_t - x mod sizeof_size_t).
Proof.
  intros Hx Hlt Hal.
  destruct (round_up_word_bounds x Hx Hlt) as (-> & _ & _).
  unfold sizeof_size_t in *.
  Z.div_mod_to_equations. lia.
Qed.

Section MsgBufferLayout.

Context `{P : Platform}.

(** X1.  In a freshly built owning message buffer, of any number of packets,
    the parts lie in address order and do not overlap: [pkthdr_0] starts at
    the base of the backing buffer and ends where the payload starts, every
    trailing header starts at or after the end of the payload, and trailing
    headers [i < j] are [(j - i) * sizeof(pkthdr)] bytes apart. *)
Theorem owning_layout_in_order
    (h : heap) (b : Buffer.t) (D N : Z) :
  0 < sizeof_pkthdr_t ->
  0 < Buffer.buf b ->
  0 <= D -> 1 <= N ->
  D + N * sizeof_pkthdr_t <= Buffer.class_size b ->
  Buffer.buf b + Buffer.class_size b + sizeof_size_t <= size_t_modulus ->
  exists m,
    MsgBuffer_owning b D N h = Some (m, h)
    /\ get_pkthdr_0 m = Buffer.buf b
    /\ get_pkthdr_0 m + sizeof_pkthdr_t = buf m
    /\ (forall i, 1 <= i < N ->
        exists ai, get_pkthdr_n m i = Some ai /\ buf m + D <= ai)
    /\ (forall i j, 1 <= i < j -> j < N ->
        exists ai aj,
          get_pkthdr_n m i = Some ai
          /\ get_pkthdr_n m j = Some aj
          /\ ai + (j - i) * sizeof_pkthdr_t = aj
          /\ ai + sizeof_pkthdr_t <= aj).
Proof.
  intros HS Hb HD HN Hcap Hrange.
  assert (Hrange' := Hrange). unfold sizeof_size_t in Hrange'.
  assert (HNS : sizeof_pkthdr_t <= N * sizeof_pkthdr_t) by nia.
  destruct (round_up_word_bounds D HD ltac:(lia)) as (_ & Hru & _).
  eexists. split.
  { apply MsgBuffer_owning_ok; unfold nullptr; lia. }
  split; [unfold get_pkthdr_0; cbn [buf]; apply ptr_sub_add; lia|].
  split.
  { unfold get_pkthdr_0. cbn [buf]. rewrite ptr_sub_add by lia.
    unfold ptr_add. rewrite wrap_small by lia. reflexivity. }
  split.
  - intros i Hi.
    rewrite (get_pkthdr_n_owning b D N i HS Hb HD Hcap Hrange Hi).
    assert (HiS : 0 <= (i - 1) * sizeof_pkthdr_t) by nia.
    eexists. split; [reflexivity|].
    cbn [buf]. unfold ptr_add. rewrite wrap_small by lia. lia.
  - intros i j Hij HjN.
    rewrite (get_pkthdr_n_owning b D N i HS Hb HD Hcap Hrange ltac:(lia)).
    rewrite (get_pkthdr_n_owning b D N j HS Hb HD Hcap Hrange ltac:(lia)).
    assert (Hji : sizeof_pkthdr_t <= (j - i) * sizeof_pkthdr_t) by nia.
    do 2 eexists. split; [reflexivity|]. split; [reflexivity|].
    split; lia.
Qed.

(** X2.  When [max_data_size] is a multiple of the word size, the capacity
    the constructor asserts covers the whole layout, for any number of
    packets: [pkthdr_0] and the payload lie within the backing buffer, and
    so does every trailing header. *)
Theorem owning_layout_fits_when_aligned
    (h : heap) (b : Buffer.t) (D N : Z) :
  0 < sizeof_pkthdr_t ->
  0 < Buffer.buf b ->
  0 <= D -> 1 <= N ->
  D mod sizeof_size_t = 0 ->
  D + N * sizeof_pkthdr_t <= Buffer.class_size b ->
  Buffer.buf b + Buffer.class_size b + sizeof_size_t <= size_t_modulus ->
  exists m,
    MsgBuffer_owning b D N h = Some (m, h)
    /\ Buffer.buf b <= get_pkthdr_0 m
    /\ get_pkthdr_0 m + sizeof_pkthdr_t <= buf m
    /\ buf m + D <= Buffer.buf b + Buffer.class_size b
    /\ (forall i, 1 <= i < N ->
        exists a,
          get_pkthdr_n m i = Some a
          /\ buf m + D <= a
          /\ a + sizeof_pkthdr_t <= Buffer.buf b + Buffer.class_size b).
Proof.
  intros HS Hb HD HN Hal Hcap Hrange.
  assert (Hrange' := Hrange). unfold sizeof_size_t in Hrange'.
  assert (HNS : sizeof_pkthdr_t <= N * sizeof_pkthdr_t) by nia.
  eexists. split.
  { apply MsgBuffer_owning_ok; unfold nullptr; lia. }
  unfold get_pkthdr_0. cbn [buf]. rewrite ptr_sub_add by lia.
  unfold ptr_add. rewrite wrap_small by lia.
  split; [lia|]. split; [lia|]. split; [lia|].
  intros i Hi.
  pose proof (get_pkthdr_n_owning b D N i HS Hb HD Hcap Hrange Hi) as Hn.
  rewrite (round_up_word_aligned D HD ltac:(lia) Hal) in Hn.
  unfold ptr_add in Hn.
  rewrite (wrap_small (Buffer.buf b + sizeof_pkthdr_t)) in Hn by lia.
  assert (HiS : 0 <= (i - 1) * sizeof_pkthdr_t
                /\ (i - 1) * sizeof_pkthdr_t + 2 * sizeof_pkthdr_t
                   <= N * sizeof_pkthdr_t) by nia.
  eexists. split; [exact Hn|]. split; lia.
Qed.

(** X3.  When [max_data_size] is not a multiple of the word size and the
    backing buffer has exactly the capacity the constructor asserts, the
    last trailing header ends past the backing buffer, by the padding that
    [get_pkthdr_n] inserts after the payload. *)
Theorem owning_last_header_overruns_tight_buffer
    (h : heap) (b : Buffer.t) (D N : Z) :
  0 < sizeof_pkthdr_t ->
  0 < Buffer.buf b ->
  0 <= D ->
  D mod sizeof_size_t <> 0 ->
  2 <= N ->
  Buffer.class_size b = D + N * sizeof_pkthdr_t ->
  Buffer.buf b + Buffer.class_size b + sizeof_size_t <= size_t_modulus ->
  exists m a,
    MsgBuffer_owning b D N h = Some (m, h)
    /\ get_pkthdr_n m (N - 1) = Some a
    /\ a + sizeof_pkthdr_t
       = Buffer.buf b + Buffer.class_size b
         + (sizeof_size_t - D mod sizeof_size_t)
    /\ Buffer.buf b + Buffer.class_size b < a + sizeof_pkthdr_t.
Proof.
  intros HS Hb HD Hal HN Hcs Hrange.
  pose proof (get_pkthdr_n_owning b D N (N - 1) HS Hb HD ltac:(lia) Hrange
                ltac:(lia)) as Hn.
  assert (Hrange' := Hrange). unfold sizeof_size_t in Hrange'.
  assert (HNS : sizeof_pkthdr_t <= N * sizeof_pkthdr_t) by nia.
  rewrite (round_up_word_unaligned D HD ltac:(lia) Hal) in Hn.
  pose proof (Z.mod_pos_bound D sizeof_size_t ltac:(unfold sizeof_size_t; lia))
    as Hmod.
  do 2 eexists. split.
  { apply MsgBuffer_owning_ok; unfold nullptr; lia. }
  split; [exact Hn|].
  split; nia.
Qed.

(** X4.  The capacity assertion of the owning constructor is computed in
    [size_t]: with [max_num_pkts = 1] and
    [max_data_size = 2^64 - sizeof(pkthdr)] the sum wraps to zero, so the
    assertion passes for every non-null backing buffer, whose class size is
    below what the message buffer claims to hold. *)
Theorem owning_ctor_capacity_check_wraps (h : heap) (b : Buffer.t) :
  0 < sizeof_pkthdr_t < size_t_modulus ->
  Buffer.buf b <> nullptr ->
  0 <= Buffer.class_size b < size_t_modulus ->
  exists m,
    MsgBuffer_owning b (size_t_modulus - sizeof_pkthdr_t) 1 h = Some (m, h)
    /\ max_data_size m = size_t_modulus - sizeof_pkthdr_t
    /\ max_num_pkts m = 1
    /\ Buffer.class_size b
       < max_data_size m + max_num_pkts m * sizeof_pkthdr_t.
Proof.
  intros HS Hnn Hcs.
  eexists. split.
  { rewrite MsgBuffer_owning_run.
    destruct (Z.eqb_spec (Buffer.buf b) nullptr) as [Hc | _]; [contradiction|].
    rewrite Z.mul_1_l, (wrap_small sizeof_pkthdr_t) by lia.
    replace (size_t_modulus - sizeof_pkthdr_t + sizeof_pkthdr_t)
      with size_t_modulus by lia.
    change (wrap size_t_modulus) with 0.
    destruct (Z.leb_spec 0 (Buffer.class_size b)); [|lia].
    reflexivity. }
  cbn [max_data_size max_num_pkts]. repeat split; lia.
Qed.

End MsgBufferLayout.

(** ** Runs of resizes *)

Lemma with_sizes_current (m : MsgBuffer) :
  with_sizes m (data_size m, num_pkts m) = m.
Proof. destruct m; reflexivity. Qed.

Lemma past_max_with_sizes (m : MsgBuffer) (sizes req : Z * Z) :
  past_max (with_sizes m sizes) req = past_max m req.
Proof. reflexivity. Qed.

Lemma resize_with_sizes (m : MsgBuffer) (d n : Z) (h : heap) :
  resize m d n h =
  if past_max m (d, n) then None else Some (with_sizes m (d, n), h).
Proof.
  rewrite resize_run. unfold past_max, with_sizes. cbn [fst snd].
  destruct (Z.leb_spec d (max_data_size m)), (Z.ltb_spec (max_data_size m) d);
    try lia; cbn [andb orb]; [|reflexivity].
  destruct (Z.leb_spec n (max_num_pkts m)), (Z.ltb_spec (max_num_pkts m) n);
    try lia; reflexivity.
Qed.

Lemma resize_all_cons (d n : Z) (rest : list (Z * Z)) (m : MsgBuffer) (h : heap) :
  resize_all ((d, n) :: rest) m h =
  match resize m d n h with
  | Some (m', h') => resize_all rest m' h'
  | None => None
  end.
Proof. reflexivity. Qed.

Lemma final_sizes_cons (r : Z * Z) (rest : list (Z * Z)) (m : MsgBuffer) :
  final_sizes (r :: rest) m = final_sizes rest (with_sizes m r).
Proof.
  unfold final_sizes. cbn [with_sizes data_size num_pkts].
  destruct rest as [|r' rest]; [destruct r; reflexivity|].
  rewrite last_cons. destruct (last (r' :: rest)) eqn:Hl; [reflexivity|].
  apply last_None in Hl. discriminate.
Qed.

Lemma with_sizes_twice (m : MsgBuffer) (s1 s2 : Z * Z) :
  with_sizes (with_sizes m s1) s2 = with_sizes m s2.
Proof. reflexivity. Qed.

(** X5.  A run of resizes fails exactly when some request goes past the
    allocation ([max_data_size], [max_num_pkts]); the current sizes set no
    limit, so a buffer can shrink and grow again.  A run that does not fail
    writes no memory and returns the object it was given with only
    [data_size] and [num_pkts] changed, to the values of the last request. *)
Theorem resize_all_result
    (reqs : list (Z * Z)) (m : MsgBuffer) (h : heap) :
  resize_all reqs m h =
  if existsb (past_max m) reqs then None
  else Some (with_sizes m (final_sizes reqs m), h).
Proof.
  revert m. induction reqs as [|[d n] rest IH]; intros m.
  - cbn [existsb]. unfold final_sizes. cbn [last default].
    rewrite with_sizes_current. reflexivity.
  - rewrite resize_all_cons, resize_with_sizes. cbn [existsb].
    destruct (past_max m (d, n)); cbn [orb]; [reflexivity|].
    rewrite IH, final_sizes_cons, with_sizes_twice.
    change (past_max (with_sizes m (d, n))) with (past_max m).
    reflexivity.
Qed.

Section MsgBufferRuns.

Context `{P : Platform}.

(** X6.  Building an owning message buffer, resizing it any number of times
    within its allocation and then resizing it to its maxima gives the
    object, and the memory, that the constructor alone gives. *)
Theorem owning_then_resize_back
    (b : Buffer.t) (D N : Z) (reqs : list (Z * Z)) (h : heap) :
  Forall (fun req => fst req <= D /\ snd req <= N) reqs ->
  (m ← MsgBuffer_owning b D N; resize_all (reqs ++ [(D, N)]) m) h
  = MsgBuffer_owning b D N h.
Proof.
  intros Hreqs.
  change ((m ← MsgBuffer_owning b D N; resize_all (reqs ++ [(D, N)]) m) h)
    with (match MsgBuffer_owning b D N h with
          | Some (m, h') => resize_all (reqs ++ [(D, N)]) m h'
          | None => None
          end).
  rewrite MsgBuffer_owning_run.
  destruct (negb (Buffer.buf b =? nullptr) && (1 <=? N)
            && (wrap (D + wrap (N * sizeof_pkthdr_t)) <=? Buffer.class_size b));
    [|reflexivity].
  set (m0 := {| buf := ptr_add (Buffer.buf b) sizeof_pkthdr_t;
                buffer := b; max_data_size := D; data_size := D;
                max_num_pkts := N; num_pkts := N; pkts_queued := 0 |}).
  assert (Hback : past_max m0 (D, N) = false).
  { unfold past_max. cbn [m0 max_data_size max_num_pkts fst snd].
    rewrite !Z.ltb_irrefl. reflexivity. }
  assert (Hno : existsb (past_max m0) reqs = false).
  { induction Hreqs as [|[d n] rest [Hd Hn] _ IH]; [reflexivity|].
    cbn [existsb]. rewrite IH, orb_false_r.
    unfold past_max. cbn [m0 max_data_size max_num_pkts fst snd] in *.
    destruct (Z.ltb_spec D d), (Z.ltb_spec N n); try lia; reflexivity. }
  rewrite resize_all_result, existsb_app. cbn [existsb].
  rewrite Hno, Hback. cbn [orb].
  unfold final_sizes. rewrite last_snoc. reflexivity.
Qed.

(** X7.  [to_string] prints ["[Invalid]"] exactly for a null [buf].  It does
    not look at memory: every valid message buffer prints as something
    else, and so does one whose header lacks the magic. *)
Theorem to_string_invalid_iff_null `{R : Rendering} (m : MsgBuffer) :
  (to_string m = "[Invalid]"%string <-> buf m = nullptr)
  /\ (forall h : heap, is_valid h m = true -> to_string m <> "[Invalid]"%string).
Proof.
  assert (Hiff : to_string m = "[Invalid]"%string <-> buf m = nullptr).
  { unfold to_string.
    destruct (Z.eqb_spec (buf m) nullptr) as [Hnull | Hnn].
    - split; [intros _; exact Hnull | reflexivity].
    - split; [|contradiction]. cbn [String.append]. discriminate. }
  split; [exact Hiff|].
  intros h Hv Hs. apply Hiff in Hs.
  apply is_valid_true_iff in Hv as [Hnn _]. contradiction.
Qed.

(** X8.  The object [get_invalid_msgbuf] returns is valid in no memory,
    whatever its uninitialised members hold, and no run of resizes makes it
    valid: it keeps printing as ["[Invalid]"]. *)
Theorem invalid_msgbuf_stays_invalid `{R : Rendering}
    (uninit : MsgBuffer) (reqs : list (Z * Z)) (h : heap) :
  existsb (past_max (get_invalid_msgbuf uninit)) reqs = false ->
  exists m',
    resize_all reqs (get_invalid_msgbuf uninit) h = Some (m', h)
    /\ (forall h' : heap, is_valid h' m' = false)
    /\ to_string m' = "[Invalid]"%string.
Proof.
  intros Hreqs. eexists. split.
  { rewrite resize_all_result, Hreqs. reflexivity. }
  split; [intros h'; reflexivity | reflexivity].
Qed.

End MsgBufferRuns.

(** ** The further properties on concrete inputs *)

(** Printing a message buffer, with pointers rendered in decimal. *)
Example to_string_of_built_msgbuf :
  to_string (R := ex_rendering) ex_msgbuf
  = "[buf 65552, buffer [65536, 8192], data 4096(4096), pkts 3(3), pkts queued/rcvd 0]"%string.
Proof. vm_compute. reflexivity. Qed.

(** Shrinking, growing again within the allocation, and one request too
    many. *)
Example resize_all_shrink_then_grow :
  resize_all [(100, 1); (4000, 3)] ex_msgbuf (heap_of_magic 11)
  = Some (with_sizes ex_msgbuf (4000, 3), heap_of_magic 11).
Proof. reflexivity. Qed.

Example resize_all_past_max_asserts :
  resize_all [(100, 1); (4097, 3); (10, 1)] ex_msgbuf (heap_of_magic 11) = None.
Proof. reflexivity. Qed.

Lemma owning_layout_in_order_witness :
  (0 < sizeof_pkthdr_t (Platform := ex_platform)
   /\ 0 < Buffer.buf ex_buffer
   /\ 0 <= 4096 /\ 1 <= 3
   /\ 4096 + 3 * sizeof_pkthdr_t (Platform := ex_platform)
      <= Buffer.class_size ex_buffer
   /\ Buffer.buf ex_buffer + Buffer.class_size ex_buffer + sizeof_size_t
      <= size_t_modulus)
  /\ exists m ai aj,
       MsgBuffer_owning (P := ex_platform) ex_buffer 4096 3 (heap_of_magic 11)
       = Some (m, heap_of_magic 11)
       /\ get_pkthdr_0 (P := ex_platform) m = Buffer.buf ex_buffer
       /\ get_pkthdr_0 (P := ex_platform) m
          + sizeof_pkthdr_t (Platform := ex_platform) = buf m
       /\ get_pkthdr_n (P := ex_platform) m 1 = Some ai
       /\ get_pkthdr_n (P := ex_platform) m 2 = Some aj
       /\ buf m + 4096 <= ai
       /\ ai + sizeof_pkthdr_t (Platform := ex_platform) <= aj.
Proof.
  split; [repeat split; by_evaluation|].
  destruct (owning_layout_in_order
              (P := ex_platform) (heap_of_magic 11) ex_buffer 4096 3)
    as (m & Hrun & Hp0 & Hbuf & Hpay & Hpairs); [by_evaluation .. |].
  destruct (Hpairs 1 2) as (ai & aj & Hi & Hj & _ & Hle);
    [split; by_evaluation | by_evaluation |].
  destruct (Hpay 1) as (ai' & Hi' & Hpay1); [split; by_evaluation|].
  assert (ai' = ai) by congruence. subst ai'.
  exists m, ai, aj. repeat split; assumption.
Defined.

Lemma owning_layout_fits_when_aligned_witness :
  (0 < sizeof_pkthdr_t (Platform := ex_platform)
   /\ 0 < Buffer.buf ex_buffer
   /\ 0 <= 4096 /\ 1 <= 3
   /\ 4096 mod sizeof_size_t = 0
   /\ 4096 + 3 * sizeof_pkthdr_t (Platform := ex_platform)
      <= Buffer.class_size ex_buffer
   /\ Buffer.buf ex_buffer + Buffer.class_size ex_buffer + sizeof_size_t
      <= size_t_modulus)
  /\ exists m,
       MsgBuffer_owning (P := ex_platform) ex_buffer 4096 3 (heap_of_magic 11)
       = Some (m, heap_of_magic 11)
       /\ Buffer.buf ex_buffer <= get_pkthdr_0 (P := ex_platform) m
       /\ buf m + 4096 <= Buffer.buf ex_buffer + Buffer.class_size ex_buffer
       /\ exists a,
            get_pkthdr_n (P := ex_platform) m 2 = Some a
            /\ a + sizeof_pkthdr_t (Platform := ex_platform)
               <= Buffer.buf ex_buffer + Buffer.class_size ex_buffer.
Proof.
  split; [repeat split; by_evaluation|].
  destruct (owning_layout_fits_when_aligned
              (P := ex_platform) (heap_of_magic 11) ex_buffer 4096 3)
    as (m & Hrun & Hbase & _ & Hpay & Hhdr); [by_evaluation .. |].
  destruct (Hhdr 2) as (a & Ha & _ & Hend); [split; by_evaluation|].
  exists m. repeat split; try assumption.
  exists a. split; assumption.
Defined.

Lemma owning_last_header_overruns_tight_buffer_witness :
  (0 < sizeof_pkthdr_t (Platform := ex_platform)
   /\ 0 < Buffer.buf (Buffer.mk 65536 33)
   /\ 0 <= 1
   /\ 1 mod sizeof_size_t <> 0
   /\ 2 <= 2
   /\ Buffer.class_size (Buffer.mk 65536 33)
      = 1 + 2 * sizeof_pkthdr_t (Platform := ex_platform)
   /\ Buffer.buf (Buffer.mk 65536 33) + Buffer.class_size (Buffer.mk 65536 33)
      + sizeof_size_t <= size_t_modulus)
  /\ exists m a,
       MsgBuffer_owning (P := ex_platform) (Buffer.mk 65536 33) 1 2
                        (heap_of_magic 11)
       = Some (m, heap_of_magic 11)
       /\ get_pkthdr_n (P := ex_platform) m (2 - 1) = Some a
       /\ a + sizeof_pkthdr_t (Platform := ex_platform)
          = Buffer.buf (Buffer.mk 65536 33)
            + Buffer.class_size (Buffer.mk 65536 33)
            + (sizeof_size_t - 1 mod sizeof_size_t)
       /\ Buffer.buf (Buffer.mk 65536 33)
          + Buffer.class_size (Buffer.mk 65536 33)
          < a + sizeof_pkthdr_t (Platform := ex_platform).
Proof.
  split; [repeat split; by_evaluation|].
  apply (owning_last_header_overruns_tight_buffer
           (P := ex_platform) (heap_of_magic 11) (Buffer.mk 65536 33) 1 2);
    by_evaluation.
Defined.

Lemma owning_ctor_capacity_check_wraps_witness :
  (0 < sizeof_pkthdr_t (Platform := ex_platform) < size_t_modulus
   /\ Buffer.buf (Buffer.mk 65536 0) <> nullptr
   /\ 0 <= Buffer.class_size (Buffer.mk 65536 0) < size_t_modulus)
  /\ exists m,
       MsgBuffer_owning (P := ex_platform) (Buffer.mk 65536 0)
                        (size_t_modulus - sizeof_pkthdr_t (Platform := ex_platform))
                        1 (heap_of_magic 11)
       = Some (m, heap_of_magic 11)
       /\ max_data_size m
          = size_t_modulus - sizeof_pkthdr_t (Platform := ex_platform)
       /\ max_num_pkts m = 1
       /\ Buffer.class_size (Buffer.mk 65536 0)
          < max_data_size m
            + max_num_pkts m * sizeof_pkthdr_t (Platform := ex_platform).
Proof.
  split; [repeat split; by_evaluation|].
  apply (owning_ctor_capacity_check_wraps
           (P := ex_platform) (heap_of_magic 11) (Buffer.mk 65536 0));
    try by_evaluation; split; by_evaluation.
Defined.

Lemma owning_then_resize_back_witness :
  Forall (fun req => fst req <= 4096 /\ snd req <= 3) [(100, 1); (4096, 2)]
  /\ (m ← MsgBuffer_owning (P := ex_platform) ex_buffer 4096 3;
      resize_all ([(100, 1); (4096, 2)] ++ [(4096, 3)]) m) (heap_of_magic 11)
     = MsgBuffer_owning (P := ex_platform) ex_buffer 4096 3 (heap_of_magic 11)
  /\ MsgBuffer_owning (P := ex_platform) ex_buffer 4096 3 (heap_of_magic 11)
     = Some (ex_msgbuf, heap_of_magic 11).
Proof.
  assert (Hreqs : Forall (fun req => fst req <= 4096 /\ snd req <= 3)
                         [(100, 1); (4096, 2)]).
  { repeat constructor; by_evaluation. }
  split; [exact Hreqs|].
  split; [|reflexivity].
  exact (owning_then_resize_back
           (P := ex_platform) ex_buffer 4096 3 [(100, 1); (4096, 2)]
           (heap_of_magic 11) Hreqs).
Defined.

Lemma invalid_msgbuf_stays_invalid_witness :
  existsb (past_max (get_invalid_msgbuf ex_msgbuf)) [(10, 1); (4096, 3)] = false
  /\ exists m',
       resize_all [(10, 1); (4096, 3)] (get_invalid_msgbuf ex_msgbuf)
                  (heap_of_magic 11)
       = Some (m', heap_of_magic 11)
       /\ (forall h' : heap, is_valid (P := ex_platform) h' m' = false)
       /\ to_string (R := ex_rendering) m' = "[Invalid]"%string.
Proof.
  split; [reflexivity|].
  apply (invalid_msgbuf_stays_invalid
           (P := ex_platform) (R := ex_rendering)
           ex_msgbuf [(10, 1); (4096, 3)] (heap_of_magic 11)).
  reflexivity.
Defined.

Lemma sm_peer_mode_discriminator_witness :
  (sm_run ex_sm_events SmThreadCtx_new = Some ex_sm_ctx
   /\ enet_peers ex_sm_ctx !! 100
      = Some {| origin := Outbound; host_ip := 167772162;
                enet_peer := {| data := 5000 |} |})
  /\ sm_is_peer_mode_server {| data := 5000 |} = false
  /\ is_Some (peer_data ex_sm_ctx !! 5000).
Proof.
  assert (Hrun : sm_run ex_sm_events SmThreadCtx_new = Some ex_sm_ctx).
  { vm_compute. reflexivity. }
  assert (Hp : enet_peers ex_sm_ctx !! 100
               = Some {| origin := Outbound; host_ip := 167772162;
                         enet_peer := {| data := 5000 |} |}).
  { vm_compute. reflexivity. }
  split; [split; assumption|].
  destruct (sm_peer_mode_discriminator ex_sm_events ex_sm_ctx 100 _ Hrun Hp)
    as (_ & _ & Hfalse & Hout).
  split; [apply Hfalse; reflexivity | apply Hout; reflexivity].
Defined.
